(** * cxrs quality gate: a shallow embedding of [tools/quality_gate.py]

    The development follows the Python source function by function:
    text primitives ([str.splitlines], [str.count], the compiled pattern
    [PAT_FN]), the three scanners ([file_violations],
    [function_violations], [error_pattern_count]) and [main]; the module
    [ReleaseCheck] does the same for [tools/release_check.py].

    Modelling conventions.
    - A Python [str] is a [string]; a character is a code point below 256.
    - Python integers that come from the command line ([--max-file-lines],
      [--max-fn-lines], [--max-raw-eprintln]) and the brace depth are [Z];
      list indices, lengths and counts are [nat].
    - A [pathlib.Path] is the list of its components; [sorted] on paths
      compares these lists component by component, every component by code
      point, which is how pathlib orders paths.
    - The file system is a read-only [World], in which every read
      succeeds, or a [Disk], in which a read may raise; the functions of
      the scripts are modelled on a [World], their runs as processes
      ([run]) on a [Disk].
    - [print] appends a structured message to the output of [main]. *)

From Stdlib Require Import List String Ascii ZArith Lia Bool Arith.
From Stdlib Require Import Sorting.Sorted Sorting.Permutation.
Import ListNotations.

Local Open Scope string_scope.
Local Open Scope list_scope.
Local Open Scope nat_scope.

(** ** Text primitives *)

Module Text.

(** [\s] of the [re] module on [str] patterns, restricted to code points
    below 256: TAB..CR, FS..US, SPACE, NEL and NBSP. *)
Definition is_space (c : ascii) : bool :=
  let n := nat_of_ascii c in
  ((9 <=? n) && (n <=? 13)) || ((28 <=? n) && (n <=? 32))
  || (n =? 133) || (n =? 160).

(** The class [[A-Za-z0-9_]]. *)
Definition is_ident (c : ascii) : bool :=
  let n := nat_of_ascii c in
  ((65 <=? n) && (n <=? 90)) || ((97 <=? n) && (n <=? 122))
  || ((48 <=? n) && (n <=? 57)) || (n =? 95).

(** Line boundaries of [str.splitlines]: LF, VT, FF, CR, FS, GS, RS and
    NEL (the boundaries above 255 are outside the character model). *)
Definition is_linebreak (c : ascii) : bool :=
  let n := nat_of_ascii c in
  ((10 <=? n) && (n <=? 13)) || ((28 <=? n) && (n <=? 30)) || (n =? 133).

Definition is_empty (s : string) : bool :=
  match s with EmptyString => true | _ => false end.

(** [splitlines_go s cur after_cr]: [cur] is the line being collected,
    [after_cr] records that the previous character was a CR, so that a
    following LF belongs to the same boundary. *)
Fixpoint splitlines_go (s cur : string) (after_cr : bool) : list string :=
  match s with
  | EmptyString => if is_empty cur then [] else [cur]
  | String c rest =>
      if after_cr && Ascii.eqb c "010" then splitlines_go rest cur false
      else if is_linebreak c
           then cur :: splitlines_go rest EmptyString (Ascii.eqb c "013")
           else splitlines_go rest (cur ++ String c EmptyString) false
  end.

(** [str.splitlines()] without [keepends]. *)
Definition splitlines (text : string) : list string :=
  splitlines_go text EmptyString false.

(** [count_go sub s skip]: occurrences of [sub] in [s] that do not
    overlap; [skip] characters are still covered by the last match. *)
Fixpoint count_go (sub s : string) (skip : nat) : nat :=
  match s with
  | EmptyString => 0
  | String _ rest =>
      match skip with
      | S k => count_go sub rest k
      | O => if prefix sub s
             then S (count_go sub rest (String.length sub - 1))
             else count_go sub rest 0
      end
  end.

(** [text.count(sub)] for a non-empty [sub]. *)
Definition count (text sub : string) : nat := count_go sub text 0.

End Text.

(** ** The signature pattern

    [PAT_FN = re.compile(r"^\s*(pub\s+)?(async\s+)?fn\s+([A-Za-z0-9_]+)\s*\(")]

    Every repetition is greedy and is followed by an item that cannot start
    with a character of the repeated class; each optional group starts with
    a letter that the item after it cannot start with.  Backtracking
    therefore never finds a match that the greedy left-to-right reading
    misses, and the matcher is written as that reading. *)

Module Pattern.
Import Text.

(** [\s*] : the input after the longest run of white space. *)
Fixpoint skip_spaces (s : string) : string :=
  match s with
  | String c rest => if is_space c then skip_spaces rest else s
  | EmptyString => s
  end.

(** [\s+] : at least one white-space character. *)
Definition spaces1 (s : string) : option string :=
  match s with
  | String c rest => if is_space c then Some (skip_spaces rest) else None
  | EmptyString => None
  end.

(** A literal word: the input after [w] when [w] is a prefix of it. *)
Fixpoint lit (w s : string) : option string :=
  match w, s with
  | EmptyString, _ => Some s
  | String a w', String b s' => if Ascii.eqb a b then lit w' s' else None
  | String _ _, EmptyString => None
  end.

(** A group [(w\s+)?] : taken when it matches, skipped otherwise. *)
Definition opt_word (w s : string) : string :=
  match lit w s with
  | Some r => match spaces1 r with Some r' => r' | None => s end
  | None => s
  end.

(** [[A-Za-z0-9_]*], greedy: the run and the input after it. *)
Fixpoint take_ident (s : string) : string * string :=
  match s with
  | String c rest =>
      if is_ident c
      then let (name, r) := take_ident rest in (String c name, r)
      else (EmptyString, s)
  | EmptyString => (EmptyString, s)
  end.

(** [PAT_FN.match(line)] followed by [m.group(3)]: [None] when the line
    does not match, the function name otherwise. *)
Definition PAT_FN (line : string) : option string :=
  let s := skip_spaces line in
  let s := opt_word "pub" s in
  let s := opt_word "async" s in
  match lit "fn" s with
  | None => None
  | Some s =>
      match spaces1 s with
      | None => None
      | Some s =>
          let (name, s) := take_ident s in
          if is_empty name then None
          else match skip_spaces s with
               | String "(" _ => Some name
               | _ => None
               end
      end
  end.

End Pattern.

(** ** Paths and [sorted] *)

Module Paths.

Definition path := list string.

(** A path is the list of its components; an absolute path starts with
    its root, ["/"] or ["//"]. *)
Definition is_root (c : string) : bool := String.eqb c "/" || String.eqb c "//".

(** [str(path)]: the root, then the components joined by the separator;
    the empty path is written as a dot. *)
Definition str (p : path) : string :=
  match p with
  | [] => "."
  | c :: rest => if is_root c then (c ++ String.concat "/" rest)%string
                 else String.concat "/" p
  end.

(** [s.split("/")] *)
Fixpoint split_slash_go (s cur : string) : list string :=
  match s with
  | EmptyString => [cur]
  | String c rest =>
      if Ascii.eqb c "/" then cur :: split_slash_go rest EmptyString
      else split_slash_go rest (cur ++ String c EmptyString)
  end.

Definition split_slash (s : string) : list string :=
  split_slash_go s EmptyString.

(** [posixpath.splitroot(s)]: the root, which is empty, one slash, or two
    slashes when [s] starts with exactly two, and the text after it. *)
Definition splitroot (s : string) : string * string :=
  match s with
  | String "/" (String "/" (String "/" r)) => ("/", String "/" (String "/" r))
  | String "/" (String "/" r) => ("//", r)
  | String "/" r => ("/", r)
  | _ => (EmptyString, s)
  end.

(** [pathlib.Path(s)]: the root and the components of the rest that are
    neither empty nor a dot. *)
Definition Path (s : string) : path :=
  let (root, rel) := splitroot s in
  (if String.eqb root EmptyString then [] else [root])
  ++ filter (fun c => negb (String.eqb c EmptyString || String.eqb c "."))
            (split_slash rel).

Definition path_compare (p q : path) : comparison :=
  list_compare String.compare p q.

(** [p <= q] on paths. *)
Definition path_leb (p q : path) : bool :=
  match path_compare p q with Gt => false | _ => true end.

Section Sorted.
Context {A : Type} (leb : A -> A -> bool).

Fixpoint insert (x : A) (l : list A) : list A :=
  match l with
  | [] => [x]
  | y :: l' => if leb x y then x :: l else y :: insert x l'
  end.

(** [sorted(l)]: a stable sort; an element stays before the later
    elements it is not greater than. *)
Fixpoint sorted (l : list A) : list A :=
  match l with
  | [] => []
  | x :: l' => insert x (sorted l')
  end.
End Sorted.

End Paths.

(** ** The scanners *)

Module Gate.
Import Text Pattern Paths.

(** What the program sees of a file system in which every read succeeds. *)
Record World := {
  path_exists : string -> bool;       (* [pathlib.Path(s).exists()] *)
  rglob_rs : string -> list path;     (* [Path(s).rglob("*.rs")], in
                                         enumeration order *)
  read_text : path -> string          (* [p.read_text(encoding="utf-8")] *)
}.

(** A file system in which a read may raise: [read_fails p] holds when
    [p.read_text(encoding="utf-8")] raises, as it does on a directory, on a
    file that may not be read and on bytes that are not UTF-8; [contents]
    gives everything else. *)
Record Disk := {
  contents : World;
  read_fails : path -> bool
}.

(** How a run of a script ends: [main()] returned [code] after printing
    [out], and [sys.exit] makes [code] the exit status; or the read of [p]
    raised, no handler caught it, and the interpreter ended the process
    with a traceback on standard error. *)
Inductive Outcome (M : Type) :=
| Returned (out : list M) (code : Z)
| Raised (p : path).

Arguments Returned {M} out code.
Arguments Raised {M} p.

(** What the run printed on standard output.  Both scripts read before
    they print, so a run that raised printed nothing. *)
Definition stdout {M : Type} (o : Outcome M) : list M :=
  match o with
  | Returned out _ => out
  | Raised _ => []
  end.

(** The exit status of the process: 1 after an exception that was not
    caught. *)
Definition exit_status {M : Type} (o : Outcome M) : Z :=
  match o with
  | Returned _ code => code
  | Raised _ => 1%Z
  end.

(** The tuple [(str(path), len(lines))]. *)
Record FileViolation := {
  file_path : string;
  file_lines : nat
}.

(** The tuple [(str(path), name, length, i + 1, j + 1)]. *)
Record FunctionViolation := {
  fn_path : string;
  fn_name : string;
  fn_length : nat;
  fn_start : nat;
  fn_end : nat
}.

Definition read_lines (w : World) (p : path) : list string :=
  splitlines (read_text w p).

(** The body of [for path in ...] of [file_violations], lines 13 to 15. *)
Definition file_check (w : World) (max_lines : Z) (p : path)
  : list FileViolation :=
  let lines := read_lines w p in
  if (Z.of_nat (List.length lines) >? max_lines)%Z
  then [ {| file_path := str p; file_lines := List.length lines |} ]
  else [].

(** [file_violations(src_root, max_lines)] *)
Definition file_violations (w : World) (src_root : string) (max_lines : Z)
  : list FileViolation :=
  flat_map (file_check w max_lines) (sorted path_leb (rglob_rs w src_root)).

(** The [for ch in lines[j]] loop: the [(opened, depth)] pair after the
    characters of one line. *)
Fixpoint scan_line (line : string) (opened : bool) (depth : Z) : bool * Z :=
  match line with
  | EmptyString => (opened, depth)
  | String ch rest =>
      if Ascii.eqb ch "{" then scan_line rest true (depth + 1)
      else if Ascii.eqb ch "}" && opened then scan_line rest opened (depth - 1)
      else scan_line rest opened depth
  end.

(** The inner [while j < len(lines)] loop. [rest] is [lines[j:]]. The
    result is [Some j] when the loop leaves through [break] at line [j],
    and [None] when it runs off the end of the file (the [else] branch of
    the loop). *)
Fixpoint scan_close (rest : list string) (j : nat) (opened : bool) (depth : Z)
  : option nat :=
  match rest with
  | [] => None
  | line :: rest' =>
      let (opened', depth') := scan_line line opened depth in
      if opened' && (depth' =? 0)%Z then Some j
      else scan_close rest' (S j) opened' depth'
  end.

(** [name not in allow] *)
Definition allowed (allow : list string) (name : string) : bool :=
  existsb (String.eqb name) allow.

(** The state of the outer loop: the cursor [i] and [violations]. *)
Record Scan := {
  cursor : nat;
  found : list FunctionViolation
}.

(** One iteration of [while i < len(lines)], entered with [i < len(lines)]. *)
Definition scan_step (p : string) (lines : list string) (max_lines : Z)
  (allow : list string) (st : Scan) : Scan :=
  let i := cursor st in
  match PAT_FN (nth i lines EmptyString) with
  | None => {| cursor := i + 1; found := found st |}
  | Some name =>
      match scan_close (skipn i lines) i false 0 with
      | Some j =>
          let len := (j - i) + 1 in
          {| cursor := j + 1;
             found :=
               if (Z.of_nat len >? max_lines)%Z && negb (allowed allow name)
               then found st ++
                    [ {| fn_path := p; fn_name := name; fn_length := len;
                         fn_start := i + 1; fn_end := j + 1 |} ]
               else found st |}
      | None => {| cursor := i + 1; found := found st |}
      end
  end.

(** [while i < len(lines)], with a bound on the number of iterations. *)
Fixpoint scan_loop (fuel : nat) (p : string) (lines : list string)
  (max_lines : Z) (allow : list string) (st : Scan) : Scan :=
  match fuel with
  | O => st
  | S fuel' =>
      if cursor st <? List.length lines
      then scan_loop fuel' p lines max_lines allow
                     (scan_step p lines max_lines allow st)
      else st
  end.

(** The cursors the outer loop visits, in order. *)
Fixpoint visited (fuel : nat) (p : string) (lines : list string)
  (max_lines : Z) (allow : list string) (st : Scan) : list nat :=
  match fuel with
  | O => []
  | S fuel' =>
      if cursor st <? List.length lines
      then cursor st ::
           visited fuel' p lines max_lines allow
                   (scan_step p lines max_lines allow st)
      else []
  end.

(** The body of [for path in ...] of [function_violations] for one file:
    [length lines] iterations are enough (theorem [scan_file_terminates]). *)
Definition scan_file (p : string) (lines : list string) (max_lines : Z)
  (allow : list string) : list FunctionViolation :=
  found (scan_loop (List.length lines) p lines max_lines allow
                   {| cursor := 0; found := [] |}).

(** [function_violations(src_root, max_lines, allow)] *)
Definition function_violations (w : World) (src_root : string)
  (max_lines : Z) (allow : list string) : list FunctionViolation :=
  flat_map
    (fun p => scan_file (str p) (read_lines w p) max_lines allow)
    (sorted path_leb (rglob_rs w src_root)).

(** [error_pattern_count(src_root)] *)
Definition error_pattern_count (w : World) (src_root : string) : nat :=
  fold_left
    (fun count p => count + Text.count (read_text w p) "eprintln!(")
    (sorted path_leb (rglob_rs w src_root)) 0.

End Gate.

(** ** The command line and [main] *)

Module Cli.
Import Text Pattern Paths Gate.

(** What the user wrote: an option that was not given is [None];
    [given_allow_fn] lists the values of every [--allow-fn], in order. *)
Record CommandLine := {
  given_src : option string;
  given_max_file_lines : option Z;
  given_max_fn_lines : option Z;
  given_allow_fn : list string;
  given_strict_errors : bool;
  given_max_raw_eprintln : option Z
}.

(** The namespace [args] that [parser.parse_args()] returns. *)
Record Args := {
  src : string;
  max_file_lines : Z;
  max_fn_lines : Z;
  allow_fn : list string;
  strict_errors : bool;
  max_raw_eprintln : option Z
}.

Definition or_default {A : Type} (given : option A) (default : A) : A :=
  match given with Some x => x | None => default end.

(** [parser.parse_args()] for the six [add_argument] declarations.  The
    [append] action of argparse adds every given value to a copy of the
    default list, so the default entry stays in front. *)
Definition parse_args (c : CommandLine) : Args :=
  {| src := or_default (given_src c) "src";
     max_file_lines := or_default (given_max_file_lines c) 400%Z;
     max_fn_lines := or_default (given_max_fn_lines c) 50%Z;
     allow_fn := ["execute_task"] ++ given_allow_fn c;
     strict_errors := given_strict_errors c;
     max_raw_eprintln := given_max_raw_eprintln c |}.

(** The lines [main] prints, one constructor per [print] call. *)
Inductive Message :=
| SourceRootNotFound (src_root : string)
    (* ERROR: source root not found: {src_root} *)
| Banner
    (* == cxrs quality gate == *)
| FileMaxLines (n : Z)
    (* file_max_lines: {n} *)
| FnMaxLines (n : Z) (allow : list string)
    (* fn_max_lines: {n} (allow={sorted(allow)}) *)
| FileViolationCount (n : nat)
    (* file_violations: {n} *)
| FileViolationItem (v : FileViolation)
    (*   - {p}: {n} *)
| FunctionViolationCount (n : nat)
    (* function_violations: {n} *)
| FunctionViolationItem (v : FunctionViolation)
    (*   - {p}:{start}-{end} {name} ({n}) *)
| RawEprintlnCount (n : nat)
    (* raw_eprintln_count: {n} *)
| BaselineExceeded (count : nat) (baseline : Z).
    (* ERROR: raw_eprintln_count {count} exceeds baseline {baseline} *)

Definition nonempty {A : Type} (l : list A) : bool :=
  match l with [] => false | _ => true end.

(** [sorted(allow)] for [allow = set(args.allow_fn)]. *)
Definition sorted_set (l : list string) : list string :=
  sorted String.leb (nodup string_dec l).

(** [max_raw_eprintln is not None and ep_count > max_raw_eprintln]: the
    baseline when the test holds. *)
Definition exceeded (max_raw : option Z) (ep_count : nat) : option Z :=
  match max_raw with
  | Some baseline =>
      if (Z.of_nat ep_count >? baseline)%Z then Some baseline else None
  | None => None
  end.

(** The report, lines 85 to 96 of the source. *)
Definition report (a : Args) (file_v : list FileViolation)
  (fn_v : list FunctionViolation) (ep_count : nat) : list Message :=
  [ Banner;
    FileMaxLines (max_file_lines a);
    FnMaxLines (max_fn_lines a) (sorted_set (allow_fn a));
    FileViolationCount (List.length file_v) ]
  ++ map FileViolationItem file_v
  ++ [ FunctionViolationCount (List.length fn_v) ]
  ++ map FunctionViolationItem (firstn 100 fn_v)
  ++ [ RawEprintlnCount ep_count ].

(** [main()], after [parse_args], when no read raises: what is printed
    and the value returned.  [src_root] is [pathlib.Path(args.src)], which
    the error line prints in its normal form; the file system is asked
    through the text of [args.src]. *)
Definition main (a : Args) (w : World) : list Message * Z :=
  let src_root := src a in
  if negb (path_exists w src_root)
  then ([ SourceRootNotFound (str (Path src_root)) ], 2%Z)
  else
    let allow := allow_fn a in
    let file_v := file_violations w src_root (max_file_lines a) in
    let fn_v := function_violations w src_root (max_fn_lines a) allow in
    let ep_count := error_pattern_count w src_root in
    let out := report a file_v fn_v ep_count in
    if nonempty file_v || nonempty fn_v then (out, 1%Z)
    else
      match exceeded (max_raw_eprintln a) ep_count with
      | Some baseline =>
          (out ++ [ BaselineExceeded ep_count baseline ], 1%Z)
      | None =>
          if strict_errors a && (0 <? ep_count) then (out, 1%Z)
          else (out, 0%Z)
      end.

(** [sys.exit(main())], lines 110 and 111, on a disk whose reads may
    raise.  When the source root exists, [file_violations] reads every
    enumerated path in sorted order before anything is printed (line 13,
    called at line 81): the first read that raises ends the run.  When
    none raises, the run is that of [main]. *)
Definition run (a : Args) (d : Disk) : Outcome Message :=
  let w := contents d in
  if negb (path_exists w (src a))
  then Returned (fst (main a w)) (snd (main a w))
  else
    match find (read_fails d) (sorted path_leb (rglob_rs w (src a))) with
    | Some p => Raised p
    | None => Returned (fst (main a w)) (snd (main a w))
    end.

End Cli.

(** ** The release check: [tools/release_check.py] *)

Module ReleaseCheck.
Import Text Pattern Paths Gate.

(** [s.rstrip()]: the white space at the end is dropped. *)
Fixpoint rstrip (s : string) : string :=
  match s with
  | EmptyString => EmptyString
  | String c rest =>
      let rest' := rstrip rest in
      if is_empty rest' && is_space c then EmptyString else String c rest'
  end.

(** [s.strip()] *)
Definition strip (s : string) : string := rstrip (skip_spaces s).

(** [sub in s] *)
Fixpoint contains (sub s : string) : bool :=
  if prefix sub s then true
  else match s with
       | String _ rest => contains sub rest
       | EmptyString => false
       end.

(** The class [[0-9]]. *)
Definition is_digit (c : ascii) : bool :=
  let n := nat_of_ascii c in (48 <=? n) && (n <=? 57).

(** The class [[A-Za-z0-9._-]]. *)
Definition is_tag (c : ascii) : bool :=
  is_ident c || Ascii.eqb c "." || Ascii.eqb c "-".

(** The class [[-+]]. *)
Definition is_sign (c : ascii) : bool := Ascii.eqb c "-" || Ascii.eqb c "+".

(** A greedy [class*]: the input after the longest run. *)
Fixpoint skip_run (f : ascii -> bool) (s : string) : string :=
  match s with
  | String c rest => if f c then skip_run f rest else s
  | EmptyString => s
  end.

(** A greedy [class+]. *)
Definition run1 (f : ascii -> bool) (s : string) : option string :=
  match s with
  | String c rest => if f c then Some (skip_run f rest) else None
  | EmptyString => None
  end.

(** [$]: the end of the text, or a line feed that ends the text. *)
Definition at_end (s : string) : bool :=
  match s with
  | EmptyString => true
  | String c EmptyString => Ascii.eqb c "010"
  | String _ (String _ _) => false
  end.

(** [(?:[-+][A-Za-z0-9._-]+)?$]: the group and the end, or the end alone. *)
Definition tag_then_end (s : string) : bool :=
  match s with
  | String c rest =>
      (if is_sign c
       then match run1 is_tag rest with
            | Some rest' => at_end rest'
            | None => false
            end
       else false)
      || at_end s
  | EmptyString => at_end s
  end.

(** [re.match(r"^[0-9]+\.[0-9]+\.[0-9]+(?:[-+][A-Za-z0-9._-]+)?$", s)] as a
    truth value.  Every run is followed by an item outside its class, so
    the greedy reading decides the match. *)
Definition SEMVER (s : string) : bool :=
  match run1 is_digit s with
  | None => false
  | Some s1 =>
  match lit "." s1 with
  | None => false
  | Some s2 =>
  match run1 is_digit s2 with
  | None => false
  | Some s3 =>
  match lit "." s3 with
  | None => false
  | Some s4 =>
  match run1 is_digit s4 with
  | None => false
  | Some s5 => tag_then_end s5
  end end end end end.

(** [fail(msg)]: one line is printed and 1 is returned. *)
Definition fail (msg : string) : list string * Z :=
  ([ ("ERROR: " ++ msg)%string ], 1%Z).

Definition required_sections : list string :=
  [ "## Requirements"; "## Quick Start"; "## Validation" ].

(** [main()] from line 23 on, for the [root] that lines 18 to 21 compute,
    when no read raises: the texts printed, one for each [print], and the
    value returned.  [root / name] adds a component and [p.exists()] is
    [path_exists w (str p)]. *)
Definition main (root : path) (w : World) : list string * Z :=
  let version := (root ++ [ "VERSION" ])%list in
  let changelog := (root ++ [ "CHANGELOG.md" ])%list in
  let readme := (root ++ [ "README.md" ])%list in
  let license_file := (root ++ [ "LICENSE" ])%list in
  match find (fun p => negb (path_exists w (str p)))
             [ version; changelog; readme; license_file ] with
  | Some p => fail ("missing required file: " ++ str p)
  | None =>
      let version_text := strip (read_text w version) in
      if is_empty version_text then fail "VERSION is empty"
      else if negb (SEMVER version_text)
      then fail ("VERSION is not semver-like: '" ++ version_text ++ "'")
      else
        let changelog_text := read_text w changelog in
        if negb (contains "## [Unreleased]" changelog_text)
        then fail "CHANGELOG.md missing '## [Unreleased]' section"
        else
          let readme_text := read_text w readme in
          match find (fun section => negb (contains section readme_text))
                     required_sections with
          | Some section => fail ("README.md missing section: " ++ section)
          | None =>
              ([ "release_check_ok";
                 ("repo_root=" ++ str root)%string;
                 ("version=" ++ version_text)%string ], 0%Z)
          end
  end.

(** [main()] has returned [r]. *)
Definition returned (r : list string * Z) : Outcome string :=
  Returned (fst r) (snd r).

(** [sys.exit(main())], lines 55 and 56, from line 23 on and on a disk
    whose reads may raise: the three reads of lines 32, 39 and 43 are not
    guarded, and each comes after the checks before it have passed. *)
Definition run (root : path) (d : Disk) : Outcome string :=
  let w := contents d in
  let version := (root ++ [ "VERSION" ])%list in
  let changelog := (root ++ [ "CHANGELOG.md" ])%list in
  let readme := (root ++ [ "README.md" ])%list in
  let license_file := (root ++ [ "LICENSE" ])%list in
  match find (fun p => negb (path_exists w (str p)))
             [ version; changelog; readme; license_file ] with
  | Some p => returned (fail ("missing required file: " ++ str p))
  | None =>
      if read_fails d version then Raised version
      else
        let version_text := strip (read_text w version) in
        if is_empty version_text then returned (fail "VERSION is empty")
        else if negb (SEMVER version_text)
        then returned
               (fail ("VERSION is not semver-like: '" ++ version_text ++ "'"))
        else if read_fails d changelog then Raised changelog
        else
          let changelog_text := read_text w changelog in
          if negb (contains "## [Unreleased]" changelog_text)
          then returned
                 (fail "CHANGELOG.md missing '## [Unreleased]' section")
          else if read_fails d readme then Raised readme
          else
            let readme_text := read_text w readme in
            match find (fun section => negb (contains section readme_text))
                       required_sections with
            | Some section =>
                returned (fail ("README.md missing section: " ++ section))
            | None =>
                returned
                  ([ "release_check_ok";
                     ("repo_root=" ++ str root)%string;
                     ("version=" ++ version_text)%string ], 0%Z)
            end
  end.

End ReleaseCheck.

Import Text Pattern Paths Gate Cli.

(** ** Vocabulary of the properties *)

(** Every character of [s] satisfies [f]. *)
Fixpoint all_chars (f : ascii -> bool) (s : string) : bool :=
  match s with
  | EmptyString => true
  | String c rest => f c && all_chars f rest
  end.

(** [g] is a match of the optional group [(w\s+)?]. *)
Definition opt_group (w g : string) : Prop :=
  g = EmptyString \/
  exists sp, g = (w ++ sp)%string /\ sp <> EmptyString /\
             all_chars is_space sp = true.

(** [line] starts with a match of the pattern of [PAT_FN] whose third group
    is [name]: the regular expression read as a set of decompositions. *)
Definition matches_PAT_FN (line name : string) : Prop :=
  exists ws0 g1 g2 ws1 ws2 rest,
    line = (ws0 ++ g1 ++ g2 ++ "fn" ++ ws1 ++ name ++ ws2 ++ String "(" rest)%string /\
    all_chars is_space ws0 = true /\
    opt_group "pub" g1 /\ opt_group "async" g2 /\
    ws1 <> EmptyString /\ all_chars is_space ws1 = true /\
    name <> EmptyString /\ all_chars is_ident name = true /\
    all_chars is_space ws2 = true.

(** The first character of [s], if any, fails [f]. *)
Definition stops (f : ascii -> bool) (s : string) : Prop :=
  match s with
  | EmptyString => True
  | String c _ => f c = false
  end.

(** The [(opened, depth)] pair after the characters of several lines. *)
Fixpoint scan_lines (ls : list string) (opened : bool) (depth : Z) : bool * Z :=
  match ls with
  | [] => (opened, depth)
  | l :: ls' => let (o, d) := scan_line l opened depth in scan_lines ls' o d
  end.

(** The text of lines [i..k], one after the other. *)
Definition text_between (lines : list string) (i k : nat) : string :=
  String.concat "" (firstn (S k - i) (skipn i lines)).

(** At the end of line [k], an opening brace has been seen since the start
    of line [i] and the depth is zero. *)
Definition closed_at_end (lines : list string) (i k : nat) : Prop :=
  scan_line (text_between lines i k) false 0 = (true, 0%Z).

(** The closing line as a reading of the contract that inspects the depth
    after every character: [hits_zero] reports whether, inside one line,
    the depth comes back to zero after an opening brace has been seen. *)
Fixpoint hits_zero (line : string) (opened : bool) (depth : Z)
  : bool * (bool * Z) :=
  match line with
  | EmptyString => (false, (opened, depth))
  | String ch rest =>
      let (o, d) :=
        if Ascii.eqb ch "{" then (true, (depth + 1)%Z)
        else if Ascii.eqb ch "}" && opened then (opened, (depth - 1)%Z)
        else (opened, depth) in
      if o && (d =? 0)%Z then (true, (o, d)) else hits_zero rest o d
  end.

(** The first line, from index [j] on, inside which the depth comes back
    to zero. *)
Fixpoint char_level_close (rest : list string) (j : nat) (opened : bool)
  (depth : Z) : option nat :=
  match rest with
  | [] => None
  | line :: rest' =>
      match hits_zero line opened depth with
      | (true, _) => Some j
      | (false, (o, d)) => char_level_close rest' (S j) o d
      end
  end.

(** The violation record built at cursor [i] for a body closing at [j]. *)
Definition span_record (p name : string) (i j : nat) : FunctionViolation :=
  {| fn_path := p; fn_name := name; fn_length := (j - i) + 1;
     fn_start := i + 1; fn_end := j + 1 |}.

(** Line [i] is a signature of [name] whose body closes at line [j]. *)
Definition closes_at (lines : list string) (i : nat) (name : string) (j : nat)
  : Prop :=
  PAT_FN (nth i lines EmptyString) = Some name /\
  scan_close (skipn i lines) i false 0 = Some j.

(** Line [i] is a signature of [name] whose body is still open at the end
    of the file. *)
Definition abandoned_at (lines : list string) (i : nat) (name : string) : Prop :=
  PAT_FN (nth i lines EmptyString) = Some name /\
  scan_close (skipn i lines) i false 0 = None.

(** The test of line 42. *)
Definition reported (max_lines : Z) (allow : list string) (name : string)
  (i j : nat) : bool :=
  (Z.of_nat ((j - i) + 1) >? max_lines)%Z && negb (allowed allow name).

(** Spans lie one after the other. *)
Definition before (v1 v2 : FunctionViolation) : Prop := fn_end v1 < fn_start v2.

(** The data invariant of a span in a file of [n] lines. *)
Definition span_ok (n : nat) (v : FunctionViolation) : Prop :=
  1 <= fn_start v /\ fn_start v <= fn_end v /\ fn_end v <= n /\
  fn_length v = fn_end v - fn_start v + 1.

Definition start_state : Scan := {| cursor := 0; found := [] |}.

(** A record is reported from one of the cursors [visit]. *)
Definition reported_from (p : string) (lines : list string) (max_lines : Z)
  (allow : list string) (visit : list nat) (v : FunctionViolation) : Prop :=
  exists i name j,
    In i visit /\ closes_at lines i name j /\
    reported max_lines allow name i j = true /\ v = span_record p name i j.

(** The invariant of the outer loop on the records found so far. *)
Definition loop_inv (lines : list string) (st : Scan) : Prop :=
  StronglySorted before (found st) /\
  Forall (fun v => span_ok (List.length lines) v /\ fn_end v <= cursor st)
         (found st).

(** The cursors of the whole run over a file. *)
Definition cursors (p : string) (lines : list string) (max_lines : Z)
  (allow : list string) : list nat :=
  visited (List.length lines) p lines max_lines allow start_state.


(** The number of characters of [s] equal to [c]. *)
Fixpoint count_char (c : ascii) (s : string) : nat :=
  match s with
  | EmptyString => 0
  | String d rest => (if Ascii.eqb d c then 1 else 0) + count_char c rest
  end.

(** The text after the first opening brace of [s], when there is one. *)
Fixpoint after_open (s : string) : option string :=
  match s with
  | EmptyString => None
  | String c rest => if Ascii.eqb c "{" then Some rest else after_open rest
  end.

(** [s] holds an opening brace, and after the first one there is exactly
    one more closing brace than opening braces. *)
Definition braces_even (s : string) : Prop :=
  exists rest, after_open s = Some rest /\
               1 + count_char "{" rest = count_char "}" rest.

(** The number of positions of [s] at which [sub] starts. *)
Fixpoint positions (sub s : string) : nat :=
  (if prefix sub s then 1 else 0)
  + match s with
    | String _ rest => positions sub rest
    | EmptyString => 0
    end.

(** Line [k] lies after the signature and up to the closing line of a span
    closed from one of the cursors [visit]. *)
Definition covered (lines : list string) (visit : list nat) (k : nat) : Prop :=
  exists i name j, In i visit /\ closes_at lines i name j /\ i < k <= j.

(** [sub] occurs in [s]. *)
Definition occurs (sub s : string) : Prop :=
  exists a b, s = (a ++ sub ++ b)%string.

(** [s] is a non-empty run of characters of the class [f]. *)
Definition run_of (f : ascii -> bool) (s : string) : Prop :=
  s <> EmptyString /\ all_chars f s = true.

(** [s] is three runs of digits joined by dots, then nothing or a sign and
    a run of tag characters, then [fin]. *)
Definition semver_with (fin s : string) : Prop :=
  exists a b c tail,
    s = (a ++ "." ++ b ++ "." ++ c ++ tail ++ fin)%string /\
    run_of ReleaseCheck.is_digit a /\ run_of ReleaseCheck.is_digit b /\
    run_of ReleaseCheck.is_digit c /\
    (tail = EmptyString \/
     exists sign t, tail = String sign t /\ ReleaseCheck.is_sign sign = true /\
                    run_of ReleaseCheck.is_tag t).

(** The language of the pattern of [SEMVER]: [$] lets a line feed end the
    text. *)
Definition matches_SEMVER (s : string) : Prop :=
  semver_with EmptyString s \/ semver_with (String "010" EmptyString) s.

(** The names of the files the release check requires, in the order of
    the loop of line 28. *)
Definition required_names : list string :=
  [ "VERSION"; "CHANGELOG.md"; "README.md"; "LICENSE" ].

(** The conditions under which the release check passes. *)
Definition release_ok (root : path) (w : World) : Prop :=
  (forall f, In f required_names ->
             path_exists w (str (root ++ [f])) = true) /\
  semver_with EmptyString
    (ReleaseCheck.strip (read_text w (root ++ ["VERSION"]))) /\
  occurs "## [Unreleased]" (read_text w (root ++ ["CHANGELOG.md"])) /\
  (forall section, In section ReleaseCheck.required_sections ->
                   occurs section (read_text w (root ++ ["README.md"]))).

(** The checks of the release check that come before the README. *)
Definition release_ok_before_readme (root : path) (w : World) : Prop :=
  (forall f, In f required_names ->
             path_exists w (str (root ++ [f])) = true) /\
  semver_with EmptyString
    (ReleaseCheck.strip (read_text w (root ++ ["VERSION"]))) /\
  occurs "## [Unreleased]" (read_text w (root ++ ["CHANGELOG.md"])).

(** The lines of the report that itemise a function violation. *)
Definition is_function_item (m : Message) : bool :=
  match m with FunctionViolationItem _ => true | _ => false end.

(** The lines of the report that itemise a file violation. *)
Definition is_file_item (m : Message) : bool :=
  match m with FileViolationItem _ => true | _ => false end.

(** Every path enumerated under [src_root] can be read. *)
Definition all_readable (d : Disk) (src_root : string) : Prop :=
  forall q, In q (rglob_rs (contents d) src_root) -> read_fails d q = false.



(** ** Inputs used as examples *)

(** A disk on which every read succeeds. *)
Definition readable (w : World) : Disk :=
  {| contents := w; read_fails := fun _ => false |}.

(** The command line without any option. *)
Definition default_args : Args :=
  parse_args
    {| given_src := None; given_max_file_lines := None;
       given_max_fn_lines := None; given_allow_fn := [];
       given_strict_errors := false; given_max_raw_eprintln := None |}.

(** A source tree whose only match of [*.rs] is a directory named
    [vendor.rs]: reading it raises. *)
Definition vendored_disk : Disk :=
  {| contents :=
       {| path_exists := fun _ => true;
          rglob_rs := fun _ => [ ["src"; "vendor.rs"] ];
          read_text := fun _ => EmptyString |};
     read_fails := fun _ => true |}.

(** A body that closes and opens again on the signature line. *)
Definition reopened : list string := [ "fn f() {} {"; "}" ].

(** A file with a function that holds a nested function, followed by a
    one-line function and a signature whose body never closes. *)
Definition sample : list string :=
  [ "pub fn outer(a: u8) {";
    "    fn inner() {";
    "    }";
    "}";
    "fn one() { }";
    "async fn open_ended() {";
    "    let x = 1;" ].

(** A function of 80 lines named [execute_task]. *)
Definition long_task : list string :=
  [ "pub fn execute_task(ctx: &Ctx) {" ]
  ++ repeat "    ctx.step();" 78
  ++ [ "}" ].

(** A file with a function of four lines that is not exempt. *)
Definition one_file : World :=
  {| path_exists := fun _ => true;
     rglob_rs := fun _ => [ ["src"; "m.rs"] ];
     read_text := fun q => String.concat (String "010" EmptyString) sample |}.

(** Two directory listings of the same two files. *)
Definition listing_ab : World :=
  {| path_exists := fun _ => true;
     rglob_rs := fun _ => [ ["src"; "a.b"; "m.rs"]; ["src"; "a"; "m.rs"] ];
     read_text := fun q => String.concat (String "010" EmptyString) sample |}.

Definition listing_ba : World :=
  {| path_exists := fun _ => true;
     rglob_rs := fun _ => [ ["src"; "a"; "m.rs"]; ["src"; "a.b"; "m.rs"] ];
     read_text := fun q => String.concat (String "010" EmptyString) sample |}.

(** Two lines that both hold the discouraged call. *)
Definition noisy_world : World :=
  {| path_exists := fun _ => true;
     rglob_rs := fun _ => [ ["src"; "lib.rs"] ];
     read_text := fun _ =>
       String.concat (String "010" EmptyString)
                     [ "eprintln!(a);"; "eprintln!(b);" ] |}.

(** [--max-file-lines 1 --max-raw-eprintln 0] *)
Definition noisy_args : Args :=
  parse_args
    {| given_src := None; given_max_file_lines := Some 1%Z;
       given_max_fn_lines := None; given_allow_fn := [];
       given_strict_errors := false; given_max_raw_eprintln := Some 0%Z |}.

(** [--max-raw-eprintln 0] *)
Definition baseline_args : Args :=
  parse_args
    {| given_src := None; given_max_file_lines := None;
       given_max_fn_lines := None; given_allow_fn := [];
       given_strict_errors := false; given_max_raw_eprintln := Some 0%Z |}.

(** The files of a repository that passes the release check; the version
    is written with white space around it. *)
Definition release_tree : World :=
  {| path_exists := fun _ => true;
     rglob_rs := fun _ => [];
     read_text := fun q =>
       match q with
       | [ _; "VERSION" ] =>
           String " " ("0.4.1-rc.1" ++ String "010" EmptyString)
       | [ _; "CHANGELOG.md" ] =>
           String.concat (String "010" EmptyString)
                         [ "# Changelog"; "## [Unreleased]"; "- nothing yet" ]
       | [ _; "README.md" ] =>
           String.concat (String "010" EmptyString)
                         [ "# cx"; "## Requirements"; "## Quick Start";
                           "## Validation" ]
       | _ => EmptyString
       end |}.

(** The same repository with the version written bare. *)
Definition release_tree_bare : World :=
  {| path_exists := fun _ => true;
     rglob_rs := fun _ => [];
     read_text := fun q =>
       match q with
       | [ _; "VERSION" ] => "0.4.1-rc.1"
       | _ => read_text release_tree q
       end |}.

(** The same repository without its licence file. *)
Definition release_tree_unlicensed : World :=
  {| path_exists := fun s => negb (String.eqb s "repo/LICENSE");
     rglob_rs := fun _ => [];
     read_text := read_text release_tree |}.

(** The same repository with a README that lacks two sections. *)
Definition release_tree_short_readme : World :=
  {| path_exists := fun _ => true;
     rglob_rs := fun _ => [];
     read_text := fun q =>
       match q with
       | [ _; "README.md" ] => "## Requirements"
       | _ => read_text release_tree q
       end |}.


(** ** The signature pattern *)

Lemma ident_not_space c : is_ident c = true -> is_space c = false.
Proof.
  destruct c as [[] [] [] [] [] [] [] []]; vm_compute; congruence.
Qed.

Lemma append_assoc (a b c : string) : ((a ++ b) ++ c = a ++ b ++ c)%string.
Proof. induction a as [|x a IH]; simpl; [reflexivity|now rewrite IH]. Qed.

Lemma skip_spaces_app ws s :
  all_chars is_space ws = true -> stops is_space s ->
  skip_spaces (ws ++ s) = s.
Proof.
  induction ws as [|c ws IH]; simpl; intros Hws Hs.
  - destruct s as [|c s]; simpl in *; [reflexivity|]. now rewrite Hs.
  - apply andb_true_iff in Hws. destruct Hws as [-> Hws]. now apply IH.
Qed.

Lemma skip_spaces_split s :
  exists ws, s = (ws ++ skip_spaces s)%string /\
             all_chars is_space ws = true /\ stops is_space (skip_spaces s).
Proof.
  induction s as [|c s (ws & E & Hws & Hst)]; simpl.
  - now exists EmptyString.
  - destruct (is_space c) eqn:C.
    + exists (String c ws). simpl. rewrite C, Hws. now rewrite <- E.
    + exists EmptyString. simpl. auto.
Qed.

Lemma spaces1_app ws s :
  ws <> EmptyString -> all_chars is_space ws = true -> stops is_space s ->
  spaces1 (ws ++ s) = Some s.
Proof.
  destruct ws as [|c ws]; [congruence|]. simpl. intros _ Hws Hs.
  apply andb_true_iff in Hws. destruct Hws as [-> Hws].
  now rewrite skip_spaces_app.
Qed.

Lemma spaces1_split s r :
  spaces1 s = Some r ->
  exists ws, s = (ws ++ r)%string /\ ws <> EmptyString /\
             all_chars is_space ws = true /\ stops is_space r.
Proof.
  destruct s as [|c s]; simpl; [discriminate|].
  destruct (is_space c) eqn:C; [|discriminate]. intros [= <-].
  destruct (skip_spaces_split s) as (ws & E & Hws & Hst).
  exists (String c ws). simpl. rewrite C, Hws, <- E. repeat split; congruence.
Qed.

Lemma lit_app w s : lit w (w ++ s) = Some s.
Proof.
  induction w as [|c w IH]; simpl; [now destruct s|].
  now rewrite Ascii.eqb_refl.
Qed.

Lemma lit_split w s r : lit w s = Some r -> s = (w ++ r)%string.
Proof.
  revert s; induction w as [|c w IH]; intros s; simpl.
  - destruct s; congruence.
  - destruct s as [|d s]; [discriminate|].
    destruct (Ascii.eqb c d) eqn:E; [|discriminate].
    apply Ascii.eqb_eq in E. subst d. intros H. now rewrite (IH _ H).
Qed.

Lemma take_ident_app name s :
  all_chars is_ident name = true -> stops is_ident s ->
  take_ident (name ++ s) = (name, s).
Proof.
  induction name as [|c name IH]; simpl; intros Hn Hs.
  - destruct s as [|c s]; simpl in *; [reflexivity|]. now rewrite Hs.
  - apply andb_true_iff in Hn. destruct Hn as [-> Hn]. now rewrite IH.
Qed.

Lemma take_ident_split s name r :
  take_ident s = (name, r) ->
  s = (name ++ r)%string /\ all_chars is_ident name = true /\ stops is_ident r.
Proof.
  revert name r; induction s as [|c s IH]; simpl; intros name r.
  - intros [= <- <-]. simpl. auto.
  - destruct (is_ident c) eqn:C.
    + destruct (take_ident s) as [n r'] eqn:E. intros [= <- <-].
      destruct (IH _ _ eq_refl) as (-> & Hn & Hr). simpl. rewrite C, Hn. auto.
    + intros [= <- <-]. simpl. auto.
Qed.

(** What [opt_word] does on an input that holds a match of the group, when
    the text after the group starts with neither white space nor the first
    letter of [w]. *)
Lemma opt_word_app c w g s :
  opt_group (String c w) g -> stops is_space s -> stops (Ascii.eqb c) s ->
  s <> EmptyString ->
  opt_word (String c w) (g ++ s) = s.
Proof.
  intros [->|(sp & -> & Hne & Hsp)] Hs Hc Hs'.
  - unfold opt_word. destruct s as [|d s]; [congruence|]. simpl in *.
    now rewrite Hc.
  - unfold opt_word. rewrite append_assoc, lit_app.
    now rewrite spaces1_app.
Qed.

Lemma opt_word_split w s :
  exists g, s = (g ++ opt_word w s)%string /\ opt_group w g /\
            (g <> EmptyString -> stops is_space (opt_word w s)).
Proof.
  unfold opt_word. destruct (lit w s) as [r|] eqn:L.
  - destruct (spaces1 r) as [r'|] eqn:S1.
    + apply lit_split in L. apply spaces1_split in S1.
      destruct S1 as (sp & -> & Hne & Hsp & Hst).
      exists (w ++ sp)%string. rewrite append_assoc. split; [exact L|].
      split; [|auto]. right. now exists sp.
    + exists EmptyString. split; [reflexivity|]. split; [now left|congruence].
  - exists EmptyString. split; [reflexivity|]. split; [now left|congruence].
Qed.

(** The matcher returns [name] exactly when the line has a decomposition
    along the regular expression with [name] as its third group. *)
Lemma PAT_FN_matches line name :
  PAT_FN line = Some name <-> matches_PAT_FN line name.
Proof.
  split.
  - unfold PAT_FN. intros H.
    destruct (skip_spaces_split line) as (ws0 & E0 & Hws0 & _).
    set (s0 := skip_spaces line) in *.
    destruct (opt_word_split "pub" s0) as (g1 & E1 & Hg1 & _).
    set (s1 := opt_word "pub" s0) in *.
    destruct (opt_word_split "async" s1) as (g2 & E2 & Hg2 & _).
    set (s2 := opt_word "async" s1) in *.
    destruct (lit "fn" s2) as [s3|] eqn:L; [|discriminate].
    apply lit_split in L.
    destruct (spaces1 s3) as [s4|] eqn:S1; [|discriminate].
    apply spaces1_split in S1. destruct S1 as (ws1 & E3 & Hne1 & Hws1 & _).
    destruct (take_ident s4) as [n s5] eqn:T.
    apply take_ident_split in T. destruct T as (E4 & Hn & _).
    destruct (is_empty n) eqn:En; [discriminate|].
    destruct (skip_spaces_split s5) as (ws2 & E5 & Hws2 & _).
    destruct (skip_spaces s5) as [|c rest] eqn:S5; [discriminate|].
    destruct c as [[] [] [] [] [] [] [] []]; try discriminate.
    injection H as <-.
    exists ws0, g1, g2, ws1, ws2, rest. repeat split; auto.
    + rewrite E0, E1, E2, L, E3, E4, E5 at 1. reflexivity.
    + intros ->. discriminate.
  - intros (ws0 & g1 & g2 & ws1 & ws2 & rest & -> & Hws0 & Hg1 & Hg2 & Hne1 &
            Hws1 & Hne & Hn & Hws2).
    assert (Hname : exists c n, name = String c n /\ is_ident c = true).
    { destruct name as [|c n]; [congruence|]. simpl in Hn.
      apply andb_true_iff in Hn. now exists c, n. }
    destruct Hname as (c & n & -> & Hc).
    unfold PAT_FN.
    assert (Hfn : forall t, stops is_space ("fn" ++ t)%string) by reflexivity.
    assert (Hg2s : forall t, stops is_space (g2 ++ "fn" ++ t)%string).
    { intros t. destruct Hg2 as [->|(sp & -> & _)]; reflexivity. }
    assert (Hg1s : forall t, stops is_space (g1 ++ g2 ++ "fn" ++ t)%string).
    { intros t. destruct Hg1 as [->|(sp & -> & _)]; [apply Hg2s|reflexivity]. }
    rewrite skip_spaces_app; auto.
    rewrite opt_word_app; auto.
    + rewrite opt_word_app; auto; try reflexivity; try discriminate.
      rewrite lit_app. rewrite spaces1_app; auto.
      * rewrite take_ident_app; auto.
        -- simpl is_empty. cbv iota.
           rewrite skip_spaces_app; auto. reflexivity.
        -- destruct ws2 as [|d ws2]; [reflexivity|]. simpl in *.
           apply andb_true_iff in Hws2. destruct Hws2 as [Hd _].
           destruct (is_ident d) eqn:Hid; [|reflexivity].
           apply ident_not_space in Hid. congruence.
      * simpl. now apply ident_not_space.
    + destruct Hg2 as [->|(sp & -> & _)]; reflexivity.
    + destruct Hg2 as [->|(sp & -> & _)]; discriminate.
Qed.

(** ** The brace scan *)

Lemma scan_line_app (a b : string) o d :
  scan_line (a ++ b)%string o d =
  let (o', d') := scan_line a o d in scan_line b o' d'.
Proof.
  revert o d; induction a as [|c a IH]; intros o d; simpl.
  - destruct (scan_line b o d); reflexivity.
  - destruct (Ascii.eqb c "{"); [apply IH|].
    destruct (Ascii.eqb c "}" && o); apply IH.
Qed.

Lemma scan_line_concat ls o d :
  scan_line (String.concat "" ls) o d = scan_lines ls o d.
Proof.
  revert o d; induction ls as [|l ls IH]; intros o d; [reflexivity|].
  destruct ls as [|l' ls].
  - simpl. destruct (scan_line l o d); reflexivity.
  - change (String.concat "" (l :: l' :: ls))
      with (l ++ String.concat "" (l' :: ls))%string.
    rewrite scan_line_app. cbn [scan_lines].
    destruct (scan_line l o d) as [o' d']. apply IH.
Qed.

Lemma scan_close_spec rest j o d k :
  scan_close rest j o d = Some k <->
  exists n, k = j + n /\ n < List.length rest /\
    scan_lines (firstn (S n) rest) o d = (true, 0%Z) /\
    forall n', n' < n -> scan_lines (firstn (S n') rest) o d <> (true, 0%Z).
Proof.
  revert j o d; induction rest as [|l rest IH]; intros j o d.
  - simpl. split; [discriminate|]. intros (n & _ & H & _). inversion H.
  - cbn [scan_close].
    destruct (scan_line l o d) as [o' d'] eqn:E.
    destruct (o' && (d' =? 0)%Z) eqn:C.
    + apply andb_true_iff in C. destruct C as [-> C]. apply Z.eqb_eq in C. subst d'.
      split.
      * intros [= <-]. exists 0. repeat split; try (simpl; lia).
        simpl. rewrite E. reflexivity.
      * intros (n & -> & _ & Hn & Hmin).
        destruct n as [|n]; [f_equal; lia|].
        exfalso. apply (Hmin 0); [lia|]. simpl. rewrite E. reflexivity.
    + rewrite IH. split.
      * intros (n & -> & Hlt & Hn & Hmin). exists (S n).
        repeat split; try (simpl; lia).
        -- cbn [firstn scan_lines]. rewrite E. exact Hn.
        -- intros [|n'] Hn'.
           ++ simpl. rewrite E. intros [= -> ->]. discriminate.
           ++ cbn [firstn scan_lines]. rewrite E. apply Hmin. lia.
      * intros (n & -> & Hlt & Hn & Hmin).
        destruct n as [|n].
        -- simpl in Hn. rewrite E in Hn. inversion Hn; subst. discriminate.
        -- exists n. repeat split; try (simpl in Hlt; lia).
           ++ cbn [firstn scan_lines] in Hn. rewrite E in Hn. exact Hn.
           ++ intros n' Hn'. specialize (Hmin (S n') ltac:(lia)).
              cbn [firstn scan_lines] in Hmin. rewrite E in Hmin. exact Hmin.
Qed.

Lemma scan_close_bounds rest j o d k :
  scan_close rest j o d = Some k -> j <= k < j + List.length rest.
Proof.
  intros H. apply scan_close_spec in H. destruct H as (n & -> & Hn & _). lia.
Qed.

(** ** The outer loop *)

Section Loop.
Variables (p : string) (lines : list string) (max_lines : Z)
          (allow : list string).

#[local] Abbreviation step := (scan_step p lines max_lines allow).
#[local] Abbreviation loop := (fun fuel => scan_loop fuel p lines max_lines allow).
#[local] Abbreviation trace := (fun fuel => visited fuel p lines max_lines allow).

Lemma scan_close_in_file i j :
  scan_close (skipn i lines) i false 0 = Some j -> i <= j < List.length lines.
Proof.
  intros H. apply scan_close_bounds in H. rewrite length_skipn in H. lia.
Qed.

Lemma step_plain st :
  PAT_FN (nth (cursor st) lines EmptyString) = None ->
  step st = {| cursor := cursor st + 1; found := found st |}.
Proof. intros H. unfold scan_step. rewrite H. reflexivity. Qed.

Lemma step_abandoned st name :
  abandoned_at lines (cursor st) name ->
  step st = {| cursor := cursor st + 1; found := found st |}.
Proof. intros [H1 H2]. unfold scan_step. rewrite H1, H2. reflexivity. Qed.

Lemma step_closed st name j :
  closes_at lines (cursor st) name j ->
  step st =
  {| cursor := j + 1;
     found := if reported max_lines allow name (cursor st) j
              then found st ++ [span_record p name (cursor st) j]
              else found st |}.
Proof. intros [H1 H2]. unfold scan_step. rewrite H1, H2. reflexivity. Qed.

(** The three ways through one iteration. *)
Lemma step_cases st :
  PAT_FN (nth (cursor st) lines EmptyString) = None \/
  (exists name, abandoned_at lines (cursor st) name) \/
  (exists name j, closes_at lines (cursor st) name j).
Proof.
  unfold abandoned_at, closes_at.
  destruct (PAT_FN (nth (cursor st) lines EmptyString)) as [name|];
    [|now left].
  right.
  destruct (scan_close (skipn (cursor st) lines) (cursor st) false 0) as [j|].
  - right. now exists name, j.
  - left. now exists name.
Qed.

Lemma step_advances st :
  cursor st < cursor (step st) /\
  (cursor st < List.length lines -> cursor (step st) <= List.length lines).
Proof.
  destruct (step_cases st) as [H|[(name & H)|(name & j & H)]].
  - rewrite (step_plain _ H). simpl. lia.
  - rewrite (step_abandoned _ _ H). simpl. lia.
  - rewrite (step_closed _ _ _ H). simpl.
    destruct H as [_ H]. apply scan_close_in_file in H. lia.
Qed.

Lemma step_cursor_only st st' :
  cursor st = cursor st' -> cursor (step st) = cursor (step st').
Proof.
  intros E. unfold scan_step. rewrite E.
  destruct (PAT_FN _); [|reflexivity].
  destruct (scan_close _ _ _ _); reflexivity.
Qed.

Lemma loop_exits fuel st :
  List.length lines - cursor st <= fuel ->
  List.length lines <= cursor (loop fuel st).
Proof.
  revert st; induction fuel as [|fuel IH]; intros st H; simpl.
  - lia.
  - destruct (cursor st <? List.length lines) eqn:E.
    + apply IH. pose proof (step_advances st). lia.
    + apply Nat.ltb_ge in E. exact E.
Qed.

Lemma loop_fuel fuel fuel' st :
  List.length lines - cursor st <= fuel ->
  List.length lines - cursor st <= fuel' ->
  loop fuel st = loop fuel' st.
Proof.
  revert fuel' st; induction fuel as [|fuel IH]; intros fuel' st H H'.
  - destruct fuel' as [|fuel']; [reflexivity|]. simpl.
    destruct (cursor st <? List.length lines) eqn:E; [|reflexivity].
    apply Nat.ltb_lt in E. lia.
  - simpl. destruct (cursor st <? List.length lines) eqn:E.
    + apply Nat.ltb_lt in E.
      destruct fuel' as [|fuel']; [lia|]. simpl.
      apply Nat.ltb_lt in E. rewrite E.
      pose proof (step_advances st). apply IH; lia.
    + destruct fuel' as [|fuel']; [reflexivity|]. simpl. now rewrite E.
Qed.

Lemma trace_fuel fuel fuel' st :
  List.length lines - cursor st <= fuel ->
  List.length lines - cursor st <= fuel' ->
  trace fuel st = trace fuel' st.
Proof.
  revert fuel' st; induction fuel as [|fuel IH]; intros fuel' st H H'.
  - destruct fuel' as [|fuel']; [reflexivity|]. simpl.
    destruct (cursor st <? List.length lines) eqn:E; [|reflexivity].
    apply Nat.ltb_lt in E. lia.
  - simpl. destruct (cursor st <? List.length lines) eqn:E.
    + apply Nat.ltb_lt in E.
      destruct fuel' as [|fuel']; [lia|]. simpl.
      apply Nat.ltb_lt in E. rewrite E. f_equal.
      pose proof (step_advances st). apply IH; lia.
    + destruct fuel' as [|fuel']; [reflexivity|]. simpl. now rewrite E.
Qed.

Lemma trace_bounds fuel st k :
  In k (trace fuel st) -> cursor st <= k < List.length lines.
Proof.
  revert st; induction fuel as [|fuel IH]; intros st; simpl; [easy|].
  destruct (cursor st <? List.length lines) eqn:E; [|easy].
  apply Nat.ltb_lt in E. intros [<-|H]; [lia|].
  apply IH in H. pose proof (step_advances st). lia.
Qed.

End Loop.

(** ** What the loop reports *)

Section Spans.
Variables (p : string) (lines : list string) (max_lines : Z)
          (allow : list string).

#[local] Abbreviation step' := (scan_step p lines max_lines allow).
#[local] Abbreviation loop' := (fun fuel => scan_loop fuel p lines max_lines allow).
#[local] Abbreviation trace' := (fun fuel => visited fuel p lines max_lines allow).

Lemma found_step st v :
  In v (found (step' st)) <->
  In v (found st) \/ reported_from p lines max_lines allow [cursor st] v.
Proof.
  unfold reported_from.
  destruct (step_cases lines st) as [H|[(name & H)|(name & j & H)]].
  - rewrite (step_plain p lines max_lines allow _ H). simpl.
    split; [now left|]. intros [Hv|(i & n & j & [<-|[]] & [Hc _] & _)]; [easy|].
    congruence.
  - rewrite (step_abandoned p lines max_lines allow _ _ H). simpl.
    split; [now left|]. intros [Hv|(i & n & j & [<-|[]] & [_ Hc] & _)]; [easy|].
    destruct H as [_ H]. congruence.
  - rewrite (step_closed p lines max_lines allow _ _ _ H). simpl.
    destruct (reported max_lines allow name (cursor st) j) eqn:R.
    + rewrite in_app_iff. simpl. split.
      * intros [Hv|[<-|[]]]; [now left|right].
        exists (cursor st), name, j. simpl. auto.
      * intros [Hv|(i & n & k & [<-|[]] & Hc & _ & ->)]; [now left|right; left].
        destruct H as [H1 H2], Hc as [H3 H4]. congruence.
    + split; [now left|].
      intros [Hv|(i & n & k & [<-|[]] & Hc & R' & _)]; [easy|].
      destruct H as [H1 H2], Hc as [H3 H4].
      assert (n = name) by congruence. assert (k = j) by congruence.
      subst. congruence.
Qed.

(** The records of a run are those it started with and those reported
    from the cursors it visits. *)
Lemma found_loop fuel st v :
  In v (found (loop' fuel st)) <->
  In v (found st) \/ reported_from p lines max_lines allow (trace' fuel st) v.
Proof.
  revert st; induction fuel as [|fuel IH]; intros st; simpl.
  - split; [now left|]. intros [H|(i & _ & _ & [] & _)]. exact H.
  - destruct (cursor st <? List.length lines) eqn:E.
    + rewrite IH, found_step. unfold reported_from. split.
      * intros [[H|(i & n & j & [<-|[]] & H)]|(i & n & j & Hi & H)].
        -- now left.
        -- right. exists (cursor st), n, j. simpl. tauto.
        -- right. exists i, n, j. simpl. tauto.
      * intros [H|(i & n & j & [<-|Hi] & H)].
        -- now left; left.
        -- left; right. exists (cursor st), n, j. simpl. tauto.
        -- right. exists i, n, j. tauto.
    + split; [now left|]. intros [H|(i & _ & _ & [] & _)]. exact H.
Qed.

(** Once a body has closed at [j], the lines up to [j] are not visited. *)
Lemma trace_skips fuel st i name j k :
  In i (trace' fuel st) -> closes_at lines i name j -> i < k <= j ->
  ~ In k (trace' fuel st).
Proof.
  revert st; induction fuel as [|fuel IH]; intros st; simpl; [easy|].
  destruct (cursor st <? List.length lines) eqn:E; [|easy].
  intros [<-|Hi] Hc Hk [<-|Hin].
  - lia.
  - apply trace_bounds in Hin.
    rewrite (step_closed p lines max_lines allow _ _ _ Hc) in Hin.
    simpl in Hin. lia.
  - apply trace_bounds in Hi. pose proof (step_advances p lines max_lines allow st).
    lia.
  - exact (IH _ Hi Hc Hk Hin).
Qed.

(** With enough iterations left, the cursor that follows a visited cursor
    is visited as well, unless it is past the end of the file. *)
Lemma trace_next fuel st i :
  List.length lines - cursor st <= fuel ->
  In i (trace' fuel st) ->
  forall st', cursor st' = i ->
  cursor (step' st') < List.length lines ->
  In (cursor (step' st')) (trace' fuel st).
Proof.
  revert st; induction fuel as [|fuel IH]; intros st Hf; simpl; [easy|].
  destruct (cursor st <? List.length lines) eqn:E; [|easy].
  pose proof (step_advances p lines max_lines allow st) as Ha.
  intros [<-|Hi] st' Hst' Hlt.
  - right. rewrite (step_cursor_only p lines max_lines allow st' st Hst') in *.
    destruct fuel as [|fuel]; [lia|]. simpl.
    apply Nat.ltb_lt in Hlt. rewrite Hlt. now left.
  - right. apply IH; auto. lia.
Qed.

Lemma StronglySorted_snoc l v :
  StronglySorted before l -> Forall (fun u => before u v) l ->
  StronglySorted before (l ++ [v]).
Proof.
  induction 1 as [|u l Hs IH Hu]; intros Hall; simpl.
  - repeat constructor.
  - inversion Hall; subst. constructor; [auto|].
    apply Forall_app. split; [exact Hu|]. now constructor.
Qed.

Lemma loop_inv_step st : loop_inv lines st -> loop_inv lines (step' st).
Proof.
  intros [Hs Hall]. unfold loop_inv.
  pose proof (step_advances p lines max_lines allow st) as [Ha _].
  assert (Hmono : forall c, cursor st <= c ->
            Forall (fun v => span_ok (List.length lines) v /\ fn_end v <= c)
                   (found st)).
  { intros c Hc. eapply Forall_impl; [|exact Hall]. simpl. intros v [? ?].
    split; [assumption|lia]. }
  destruct (step_cases lines st) as [H|[(name & H)|(name & j & H)]].
  - rewrite (step_plain p lines max_lines allow _ H). simpl.
    split; [exact Hs|]. apply Hmono. lia.
  - rewrite (step_abandoned p lines max_lines allow _ _ H). simpl.
    split; [exact Hs|]. apply Hmono. lia.
  - rewrite (step_closed p lines max_lines allow _ _ _ H). simpl.
    destruct H as [_ H]. apply scan_close_in_file in H.
    destruct (reported max_lines allow name (cursor st) j).
    + split.
      * apply StronglySorted_snoc; [exact Hs|].
        eapply Forall_impl; [|exact Hall]. unfold before. simpl.
        intros v [_ Hv]. lia.
      * apply Forall_app. split; [apply Hmono; lia|].
        constructor; [|constructor]. unfold span_ok. simpl. lia.
    + split; [exact Hs|]. apply Hmono. lia.
Qed.

Lemma loop_inv_loop fuel st : loop_inv lines st -> loop_inv lines (loop' fuel st).
Proof.
  revert st; induction fuel as [|fuel IH]; intros st H; simpl; [exact H|].
  destruct (cursor st <? List.length lines); [|exact H].
  apply IH, loop_inv_step, H.
Qed.

Lemma loop_inv_start : loop_inv lines start_state.
Proof. split; constructor. Qed.

Lemma scan_file_sorted :
  StronglySorted before (scan_file p lines max_lines allow).
Proof. apply (loop_inv_loop (List.length lines) start_state loop_inv_start). Qed.

Lemma scan_file_ok v :
  In v (scan_file p lines max_lines allow) -> span_ok (List.length lines) v.
Proof.
  intros H.
  destruct (loop_inv_loop (List.length lines) start_state loop_inv_start) as [_ Hall].
  rewrite Forall_forall in Hall. apply (Hall v H).
Qed.

Lemma scan_file_reported v :
  In v (scan_file p lines max_lines allow) <-> reported_from p lines max_lines allow (cursors p lines max_lines allow) v.
Proof.
  unfold scan_file, cursors. fold start_state.
  rewrite found_loop. simpl. tauto.
Qed.

End Spans.

(** ** The closing line *)

Lemma closed_at_end_lines lines i n :
  closed_at_end lines i (i + n) <->
  scan_lines (firstn (S n) (skipn i lines)) false 0 = (true, 0%Z).
Proof.
  unfold closed_at_end, text_between. rewrite scan_line_concat.
  replace (S (i + n) - i) with (S n) by lia. reflexivity.
Qed.

Lemma scan_close_iff lines i j :
  scan_close (skipn i lines) i false 0 = Some j <->
  (i <= j < List.length lines /\ closed_at_end lines i j /\
   forall k, i <= k < j -> ~ closed_at_end lines i k).
Proof.
  rewrite scan_close_spec, length_skipn. split.
  - intros (n & -> & Hn & Hc & Hmin). repeat split; try lia.
    + now apply closed_at_end_lines.
    + intros k Hk Hck. apply (Hmin (k - i)); [lia|].
      apply closed_at_end_lines. now replace (i + (k - i)) with k by lia.
  - intros (Hj & Hc & Hmin). exists (j - i).
    replace j with (i + (j - i)) in Hc by lia.
    repeat split; try lia.
    + now apply closed_at_end_lines.
    + intros n' Hn' Hc'. apply (Hmin (i + n')); [lia|].
      now apply closed_at_end_lines.
Qed.

Lemma never_closed_abandoned lines i :
  (forall k, i <= k < List.length lines -> ~ closed_at_end lines i k) ->
  scan_close (skipn i lines) i false 0 = None.
Proof.
  intros H. destruct (scan_close (skipn i lines) i false 0) as [j|] eqn:E;
    [|reflexivity].
  apply scan_close_iff in E. destruct E as (Hj & Hc & _).
  now destruct (H j Hj).
Qed.

(** C1, as stated, fails: on [reopened] the depth first comes back to zero
    inside line 0, which matches the signature pattern, and opens again on
    that line; the scan does not return line 0 but line 1. *)
Lemma scan_close_is_not_char_level :
  PAT_FN (nth 0 reopened EmptyString) = Some "f" /\
  char_level_close (skipn 0 reopened) 0 false 0 = Some 0 /\
  scan_close (skipn 0 reopened) 0 false 0 = Some 1 /\
  scan_close (skipn 0 reopened) 0 false 0
    <> char_level_close (skipn 0 reopened) 0 false 0.
Proof. repeat split; try reflexivity. discriminate. Qed.

(** C1, amended: for a line [i] that matches the signature pattern, the
    brace scan returns [j] exactly when [j] is the first line from [i] on
    at whose end, all characters of lines [i..j] counted, an opening brace
    has been seen and the depth is zero. *)
Theorem scan_close_first_line_end lines i name :
  PAT_FN (nth i lines EmptyString) = Some name ->
  forall j,
    scan_close (skipn i lines) i false 0 = Some j <->
    (i <= j < List.length lines /\ closed_at_end lines i j /\
     forall k, i <= k < j -> ~ closed_at_end lines i k).
Proof. intros _ j. apply scan_close_iff. Qed.

Lemma scan_close_first_line_end_witness :
  PAT_FN (nth 0 reopened EmptyString) = Some "f" /\
  (0 <= 1 < List.length reopened /\ closed_at_end reopened 0 1 /\
   forall k, 0 <= k < 1 -> ~ closed_at_end reopened 0 k).
Proof.
  split; [reflexivity|].
  apply (scan_close_first_line_end reopened 0 "f"); reflexivity.
Defined.

(** ** Termination *)

(** C10: every iteration of the outer loop moves the cursor forward (by one
    on a line that is no signature, by one when the body of a signature is
    still open at the end of the file, to [j + 1] when the body closes at
    line [j >= i]), so the loop over a file leaves through its guard after
    at most [len(lines)] iterations, and more iterations change nothing. *)
Theorem scan_file_terminates p lines max_lines allow :
  (forall st, PAT_FN (nth (cursor st) lines EmptyString) = None ->
     cursor (scan_step p lines max_lines allow st) = cursor st + 1) /\
  (forall st name, abandoned_at lines (cursor st) name ->
     cursor (scan_step p lines max_lines allow st) = cursor st + 1) /\
  (forall st name j, closes_at lines (cursor st) name j ->
     cursor st <= j /\ cursor (scan_step p lines max_lines allow st) = j + 1) /\
  (forall st, cursor st < cursor (scan_step p lines max_lines allow st)) /\
  List.length lines
    <= cursor (scan_loop (List.length lines) p lines max_lines allow start_state) /\
  (forall fuel, List.length lines <= fuel ->
     scan_loop fuel p lines max_lines allow start_state
     = scan_loop (List.length lines) p lines max_lines allow start_state).
Proof.
  repeat split.
  - intros st H. now rewrite (step_plain _ _ _ _ _ H).
  - intros st name H. now rewrite (step_abandoned _ _ _ _ _ _ H).
  - destruct H as [_ H]. apply scan_close_in_file in H. lia.
  - now rewrite (step_closed _ _ _ _ _ _ _ H).
  - intros st. apply step_advances.
  - apply loop_exits. simpl. lia.
  - intros fuel H. apply loop_fuel; simpl; lia.
Qed.

Lemma scan_file_terminates_witness :
  List.length sample
  <= cursor (scan_loop (List.length sample) "a.rs" sample 0 [] start_state).
Proof. apply (scan_file_terminates "a.rs" sample 0 []). Defined.

(** ** Bodies that never close *)

Lemma no_record_without_close p lines max_lines allow i :
  scan_close (skipn i lines) i false 0 = None ->
  forall v, In v (scan_file p lines max_lines allow) -> fn_start v <> i + 1.
Proof.
  intros Hn v Hv Hs. apply scan_file_reported in Hv.
  destruct Hv as (i' & n & j & _ & [_ Hc] & _ & ->). simpl in Hs.
  assert (i' = i) by lia. subst. congruence.
Qed.

(** C5: when line [i] is a signature the scan reaches and, from line [i]
    to the end of the file, no line ends with an opening brace seen and the
    depth at zero, the iteration leaves the records as they are and moves
    the cursor to [i + 1]; no record starts at that signature, and line
    [i + 1] is scanned next when the file has one. *)
Theorem unterminated_body_skipped p lines max_lines allow i name :
  In i (cursors p lines max_lines allow) ->
  PAT_FN (nth i lines EmptyString) = Some name ->
  (forall k, i <= k < List.length lines -> ~ closed_at_end lines i k) ->
  (forall st, cursor st = i ->
     scan_step p lines max_lines allow st
     = {| cursor := i + 1; found := found st |}) /\
  (forall v, In v (scan_file p lines max_lines allow) -> fn_start v <> i + 1) /\
  (i + 1 < List.length lines -> In (i + 1) (cursors p lines max_lines allow)).
Proof.
  intros Hi Hsig Hopen. apply never_closed_abandoned in Hopen.
  assert (Hstep : forall st, cursor st = i ->
            scan_step p lines max_lines allow st
            = {| cursor := i + 1; found := found st |}).
  { intros st <-. apply (step_abandoned _ _ _ _ _ name). now split. }
  repeat split.
  - exact Hstep.
  - now apply no_record_without_close.
  - intros Hlt.
    pose proof (trace_next p lines max_lines allow (List.length lines)
                  start_state i) as Hn.
    specialize (Hn ltac:(simpl; lia) Hi {| cursor := i; found := [] |} eq_refl).
    rewrite (Hstep {| cursor := i; found := [] |} eq_refl) in Hn.
    simpl in Hn. now apply Hn.
Qed.

Lemma unterminated_body_skipped_witness :
  (forall st, cursor st = 5 ->
     scan_step "a.rs" sample 50 [] st = {| cursor := 5 + 1; found := found st |}) /\
  (forall v, In v (scan_file "a.rs" sample 50 []) -> fn_start v <> 5 + 1) /\
  (5 + 1 < List.length sample -> In (5 + 1) (cursors "a.rs" sample 50 [])).
Proof.
  apply (unterminated_body_skipped "a.rs" sample 50 [] 5 "open_ended").
  - vm_compute. tauto.
  - reflexivity.
  - intros k Hk. assert (k = 5 \/ k = 6) as [-> | ->] by (simpl in Hk; lia);
      vm_compute; discriminate.
Defined.

(** ** Nested signatures *)

Lemma no_record_inside p lines max_lines allow i name j k :
  In i (cursors p lines max_lines allow) -> closes_at lines i name j ->
  i < k <= j ->
  forall v, In v (scan_file p lines max_lines allow) -> fn_start v <> k + 1.
Proof.
  intros Hi Hc Hk v Hv Hs. apply scan_file_reported in Hv.
  destruct Hv as (i' & n & j' & Hi' & _ & _ & ->). simpl in Hs.
  assert (i' = k) by lia. subst.
  exact (trace_skips _ _ _ _ _ _ _ _ _ _ Hi Hc Hk Hi').
Qed.

(** C6: when the scan reaches a signature at line [i] whose body closes at
    line [j], the cursor goes from [i] to [j + 1]; no line [k] with
    [i < k <= j] is scanned as a possible signature and no record starts
    there, whatever line [k] holds; and the records of a file lie one
    after the other, each ending before the next one starts. *)
Theorem nested_signatures_skipped p lines max_lines allow i name j :
  In i (cursors p lines max_lines allow) ->
  closes_at lines i name j ->
  (forall st, cursor st = i ->
     cursor (scan_step p lines max_lines allow st) = j + 1) /\
  (forall k, i < k <= j ->
     ~ In k (cursors p lines max_lines allow) /\
     forall v, In v (scan_file p lines max_lines allow) -> fn_start v <> k + 1) /\
  StronglySorted before (scan_file p lines max_lines allow).
Proof.
  intros Hi Hc. repeat split.
  - intros st <-. now rewrite (step_closed _ _ _ _ _ _ _ Hc).
  - exact (trace_skips _ _ _ _ _ _ _ _ _ _ Hi Hc H).
  - now apply (no_record_inside _ _ _ _ i name j).
  - apply scan_file_sorted.
Qed.

Lemma nested_signatures_skipped_witness :
  PAT_FN (nth 1 sample EmptyString) = Some "inner" /\
  ~ In 1 (cursors "a.rs" sample 0 []) /\
  scan_file "a.rs" sample 0 []
  = [ span_record "a.rs" "outer" 0 3; span_record "a.rs" "one" 4 4 ].
Proof.
  split; [reflexivity|]. split; [|reflexivity].
  apply (nested_signatures_skipped "a.rs" sample 0 [] 0 "outer" 3).
  - vm_compute. tauto.
  - split; reflexivity.
  - lia.
Defined.

(** ** The span invariant *)

Lemma skipn_cons_nth (lines : list string) i :
  i < List.length lines ->
  skipn i lines = nth i lines EmptyString :: skipn (S i) lines.
Proof.
  revert i; induction lines as [|l lines IH]; intros i H; simpl in H; [lia|].
  destruct i as [|i]; [reflexivity|].
  change (skipn i lines = nth i lines EmptyString :: skipn (S i) lines).
  apply IH. lia.
Qed.

Lemma closes_on_signature_line lines i name :
  i < List.length lines ->
  PAT_FN (nth i lines EmptyString) = Some name ->
  scan_line (nth i lines EmptyString) false 0 = (true, 0%Z) ->
  closes_at lines i name i.
Proof.
  intros Hi Hsig Hline. split; [exact Hsig|].
  rewrite (skipn_cons_nth _ _ Hi). cbn [scan_close]. now rewrite Hline.
Qed.

Lemma function_violations_in w src_root max_lines allow v :
  In v (function_violations w src_root max_lines allow) ->
  exists q, In v (scan_file (str q) (read_lines w q) max_lines allow).
Proof.
  unfold function_violations. rewrite in_flat_map.
  intros (q & _ & H). now exists q.
Qed.

(** C9, amended: every record of [function_violations] has a start line
    of at least 1, a start line not after its end line, and a length of end
    minus start plus 1, which is at least 1; a signature line at whose end
    the body has opened and is closed (an opening brace seen and the depth
    at zero once the whole line is read) is a span of one line, starting
    and ending there. *)
Theorem function_violation_span_invariant w src_root max_lines allow :
  (forall v, In v (function_violations w src_root max_lines allow) ->
     1 <= fn_start v /\ fn_start v <= fn_end v /\
     fn_length v = fn_end v - fn_start v + 1 /\ 1 <= fn_length v) /\
  (forall p lines st name,
     cursor st < List.length lines ->
     PAT_FN (nth (cursor st) lines EmptyString) = Some name ->
     scan_line (nth (cursor st) lines EmptyString) false 0 = (true, 0%Z) ->
     let v := span_record p name (cursor st) (cursor st) in
     scan_step p lines max_lines allow st
     = {| cursor := cursor st + 1;
          found := if reported max_lines allow name (cursor st) (cursor st)
                   then found st ++ [v] else found st |} /\
     fn_length v = 1 /\ fn_start v = cursor st + 1 /\ fn_end v = cursor st + 1).
Proof.
  split.
  - intros v Hv. apply function_violations_in in Hv. destruct Hv as (q & Hv).
    apply scan_file_ok in Hv. unfold span_ok in Hv. lia.
  - intros p lines st name Hi Hsig Hline v.
    pose proof (closes_on_signature_line _ _ _ Hi Hsig Hline) as Hc.
    rewrite (step_closed _ _ _ _ _ _ _ Hc). subst v. simpl.
    repeat split. lia.
Qed.

Lemma function_violation_span_invariant_witness :
  scan_step "a.rs" sample 0 [] {| cursor := 4; found := [] |}
  = {| cursor := 5; found := [ span_record "a.rs" "one" 4 4 ] |} /\
  fn_length (span_record "a.rs" "one" 4 4) = 1.
Proof.
  destruct (function_violation_span_invariant
              {| path_exists := fun _ => true; rglob_rs := fun _ => [];
                 read_text := fun _ => EmptyString |} "src" 0 [])
    as [_ H].
  specialize (H "a.rs" sample {| cursor := 4; found := [] |} "one").
  simpl in H. destruct H as (H1 & H2 & _); try reflexivity; [lia|].
  split; [exact H1|exact H2].
Defined.

(** ** Thresholds *)

Lemma record_at_cursor p lines max_lines allow i name j v :
  closes_at lines i name j ->
  In v (scan_file p lines max_lines allow) -> fn_start v = i + 1 ->
  v = span_record p name i j /\ reported max_lines allow name i j = true.
Proof.
  intros [Hs Hc] Hv Hst. apply scan_file_reported in Hv.
  destruct Hv as (i' & n & j' & _ & [Hs' Hc'] & R & ->). simpl in Hst.
  assert (i' = i) by lia. subst i'.
  assert (n = name) by congruence. assert (j' = j) by congruence.
  subst. now split.
Qed.

Lemma sorted_spans_NoDup n l :
  StronglySorted before l -> Forall (span_ok n) l -> NoDup l.
Proof.
  induction 1 as [|v l Hs IH Hv]; intros Hall; constructor.
  - intros Hin. rewrite Forall_forall in Hv. specialize (Hv v Hin).
    inversion Hall as [|? ? Hok _]; subst. unfold before, span_ok in *. lia.
  - apply IH. now inversion Hall.
Qed.

Lemma scan_file_NoDup p lines max_lines allow :
  NoDup (scan_file p lines max_lines allow).
Proof.
  apply (sorted_spans_NoDup (List.length lines)).
  - apply scan_file_sorted.
  - apply Forall_forall. intros v. apply scan_file_ok.
Qed.

Lemma file_violations_filter w src_root max_lines :
  file_violations w src_root max_lines
  = map (fun q => {| file_path := str q;
                     file_lines := List.length (read_lines w q) |})
        (filter (fun q => (Z.of_nat (List.length (read_lines w q)) >? max_lines)%Z)
                (sorted path_leb (rglob_rs w src_root))).
Proof.
  unfold file_violations.
  induction (sorted path_leb (rglob_rs w src_root)) as [|q l IH];
    [reflexivity|].
  simpl. rewrite IH. unfold file_check.
  destruct (Z.of_nat (List.length (read_lines w q)) >? max_lines)%Z; reflexivity.
Qed.

(** C4: both thresholds are strict.  A file of at most [max_file] lines
    adds no record and a file of [max_file + 1] lines adds exactly one;
    the records of a run are those of the enumerated files with more than
    [max_file] lines, one each.  A span the scan closes whose length is
    [max_fn] has no record; a span of [max_fn + 1] lines has exactly one
    record when its name is not allowed, and none when it is. *)
Theorem thresholds_are_strict w src_root max_file p lines max_fn allow :
  (forall q, (Z.of_nat (List.length (read_lines w q)) <= max_file)%Z ->
     file_check w max_file q = []) /\
  (forall q, Z.of_nat (List.length (read_lines w q)) = (max_file + 1)%Z ->
     file_check w max_file q
     = [ {| file_path := str q;
            file_lines := List.length (read_lines w q) |} ]) /\
  file_violations w src_root max_file
  = map (fun q => {| file_path := str q;
                     file_lines := List.length (read_lines w q) |})
        (filter (fun q => (Z.of_nat (List.length (read_lines w q)) >? max_file)%Z)
                (sorted path_leb (rglob_rs w src_root))) /\
  (forall i name j,
     In i (cursors p lines max_fn allow) -> closes_at lines i name j ->
     let s := span_record p name i j in
     (Z.of_nat (fn_length s) = max_fn ->
      forall v, In v (scan_file p lines max_fn allow) -> fn_start v <> i + 1) /\
     (Z.of_nat (fn_length s) = (max_fn + 1)%Z -> allowed allow name = false ->
      In s (scan_file p lines max_fn allow) /\
      forall v, In v (scan_file p lines max_fn allow) ->
                fn_start v = i + 1 -> v = s) /\
     (allowed allow name = true ->
      forall v, In v (scan_file p lines max_fn allow) -> fn_start v <> i + 1)) /\
  NoDup (scan_file p lines max_fn allow).
Proof.
  split; [|split; [|split; [|split]]].
  - intros q H. unfold file_check.
    destruct (Z.gtb_spec (Z.of_nat (List.length (read_lines w q))) max_file);
      [lia|reflexivity].
  - intros q H. unfold file_check.
    destruct (Z.gtb_spec (Z.of_nat (List.length (read_lines w q))) max_file);
      [reflexivity|lia].
  - apply file_violations_filter.
  - intros i name j Hi Hc s. subst s. simpl. repeat split.
    + intros Hlen v Hv Hst.
      destruct (record_at_cursor _ _ _ _ _ _ _ _ Hc Hv Hst) as [_ R].
      unfold reported in R. apply andb_true_iff in R. destruct R as [R _].
      apply Z.gtb_lt in R. lia.
    + apply scan_file_reported. exists i, name, j. repeat split; auto.
      * apply Hc.
      * apply Hc.
      * unfold reported. rewrite H0. simpl. rewrite andb_true_r.
        apply Z.gtb_lt. lia.
    + intros v Hv Hst. now destruct (record_at_cursor _ _ _ _ _ _ _ _ Hc Hv Hst).
    + intros Ha v Hv Hst.
      destruct (record_at_cursor _ _ _ _ _ _ _ _ Hc Hv Hst) as [_ R].
      unfold reported in R. rewrite Ha in R. simpl in R.
      rewrite andb_false_r in R. discriminate.
  - apply scan_file_NoDup.
Qed.

Lemma thresholds_are_strict_witness :
  file_check one_file 6 ["src"; "m.rs"]
  = [ {| file_path := str ["src"; "m.rs"];
         file_lines := List.length (read_lines one_file ["src"; "m.rs"]) |} ] /\
  In (span_record "src/m.rs" "outer" 0 3) (scan_file "src/m.rs" sample 3 []).
Proof.
  destruct (thresholds_are_strict one_file "src" 6 "src/m.rs" sample 3 [])
    as (_ & Hfile & _ & Hfn & _).
  split.
  - apply (Hfile ["src"; "m.rs"]). vm_compute. reflexivity.
  - destruct (Hfn 0 "outer" 3) as (_ & Hone & _).
    + vm_compute. tauto.
    + split; vm_compute; reflexivity.
    + exact (proj1 (Hone eq_refl eq_refl)).
Defined.

(** ** The order of paths *)

Lemma ascii_compare_refl (a b : ascii) : Ascii.compare a b = Eq <-> a = b.
Proof.
  split; [apply Ascii.compare_eq_iff|]. intros ->. apply N.compare_refl.
Qed.

Lemma ascii_compare_trans (a b c : ascii) (r : comparison) :
  Ascii.compare a b = r -> Ascii.compare b c = r -> Ascii.compare a c = r.
Proof.
  unfold Ascii.compare. destruct r; intros H1 H2.
  - apply N.compare_eq_iff in H1, H2. apply N.compare_eq_iff. congruence.
  - apply N.compare_lt_iff in H1, H2. apply N.compare_lt_iff.
    now apply (N.lt_trans _ (N_of_ascii b)).
  - apply N.compare_gt_iff in H1, H2. apply N.compare_gt_iff.
    now apply (N.lt_trans _ (N_of_ascii b)).
Qed.

Lemma string_compare_list (s t : string) :
  String.compare s t
  = list_compare Ascii.compare (list_ascii_of_string s) (list_ascii_of_string t).
Proof.
  revert t; induction s as [|a s IH]; intros [|b t]; simpl; try reflexivity.
  rewrite IH. reflexivity.
Qed.

Lemma string_compare_refl (s t : string) : String.compare s t = Eq <-> s = t.
Proof.
  split; [apply String.compare_eq_iff|]. intros ->.
  rewrite string_compare_list.
  now apply (list_compare_refl _ ascii_compare_refl).
Qed.

Lemma string_compare_trans (s t u : string) (r : comparison) :
  String.compare s t = r -> String.compare t u = r -> String.compare s u = r.
Proof.
  rewrite !string_compare_list.
  apply (list_compare_trans _ ascii_compare_refl).
  - intros x y z c. apply ascii_compare_trans.
  - intros x y. apply Ascii.compare_antisym.
Qed.

Lemma path_compare_opp (p q : path) :
  path_compare q p = CompOpp (path_compare p q).
Proof.
  apply (list_compare_antisym _ string_compare_refl).
  intros x y. apply String.compare_antisym.
Qed.

Lemma path_compare_trans (p q r : path) (c : comparison) :
  path_compare p q = c -> path_compare q r = c -> path_compare p r = c.
Proof.
  apply (list_compare_trans _ string_compare_refl).
  - intros x y z c'. apply string_compare_trans.
  - intros x y. apply String.compare_antisym.
Qed.

Lemma path_compare_eq (p q : path) : path_compare p q = Eq <-> p = q.
Proof. apply (list_compare_refl _ string_compare_refl). Qed.

Lemma path_leb_total (p q : path) : path_leb p q = true \/ path_leb q p = true.
Proof.
  unfold path_leb. rewrite (path_compare_opp p q).
  destruct (path_compare p q); simpl; auto.
Qed.

Lemma path_leb_antisym (p q : path) :
  path_leb p q = true -> path_leb q p = true -> p = q.
Proof.
  unfold path_leb. rewrite (path_compare_opp p q).
  destruct (path_compare p q) eqn:E; simpl; try discriminate.
  intros _ _. now apply path_compare_eq.
Qed.

Lemma path_leb_trans (p q r : path) :
  path_leb p q = true -> path_leb q r = true -> path_leb p r = true.
Proof.
  unfold path_leb.
  destruct (path_compare p q) eqn:E1; try discriminate;
    destruct (path_compare q r) eqn:E2; try discriminate; intros _ _.
  - now rewrite (path_compare_trans _ _ _ _ E1 E2).
  - apply path_compare_eq in E1. subst. now rewrite E2.
  - apply path_compare_eq in E2. subst. now rewrite E1.
  - now rewrite (path_compare_trans _ _ _ _ E1 E2).
Qed.

(** ** [sorted] *)

Section SortedFacts.
Context {A : Type} (leb : A -> A -> bool).
Hypothesis leb_total : forall x y, leb x y = true \/ leb y x = true.
Hypothesis leb_trans :
  forall x y z, leb x y = true -> leb y z = true -> leb x z = true.
Hypothesis leb_antisym : forall x y, leb x y = true -> leb y x = true -> x = y.

#[local] Abbreviation le := (fun x y => leb x y = true).

Lemma insert_perm x l : Permutation (insert leb x l) (x :: l).
Proof.
  induction l as [|y l IH]; simpl; [reflexivity|].
  destruct (leb x y); [reflexivity|].
  rewrite IH. apply perm_swap.
Qed.

Lemma sorted_perm l : Permutation (sorted leb l) l.
Proof.
  induction l as [|x l IH]; simpl; [reflexivity|].
  rewrite insert_perm. now constructor.
Qed.

Lemma insert_sorted x l :
  StronglySorted le l -> StronglySorted le (insert leb x l).
Proof.
  induction 1 as [|y l Hs IH Hy]; simpl.
  - repeat constructor.
  - destruct (leb x y) eqn:E.
    + constructor; [now constructor|].
      constructor; [exact E|].
      eapply Forall_impl; [|exact Hy]. intros z Hz. now apply (leb_trans x y z).
    + constructor; [exact IH|].
      apply (Permutation_Forall (Permutation_sym (insert_perm x l))).
      constructor; [|exact Hy].
      destruct (leb_total x y) as [H|H]; [congruence|exact H].
Qed.

Lemma sorted_sorted l : StronglySorted le (sorted leb l).
Proof.
  induction l as [|x l IH]; simpl; [constructor|]. now apply insert_sorted.
Qed.

Lemma strongly_sorted_perm_eq l l' :
  StronglySorted le l -> StronglySorted le l' -> Permutation l l' -> l = l'.
Proof.
  intros Hl; revert l'. induction Hl as [|x l Hs IH Hx]; intros l' Hl' Hp.
  - now apply Permutation_nil in Hp.
  - destruct Hl' as [|y l' Hs' Hy].
    + apply Permutation_sym, Permutation_nil in Hp. discriminate.
    + rewrite Forall_forall in Hx, Hy.
      assert (x = y) as <-.
      { assert (In x (y :: l')) as [->|Hin]
          by (apply (Permutation_in _ Hp); now left); [reflexivity|].
        assert (In y (x :: l)) as [->|Hin']
          by (apply (Permutation_in _ (Permutation_sym Hp)); now left);
          [reflexivity|].
        apply leb_antisym; auto. }
      f_equal. apply IH; [exact Hs'|]. now apply Permutation_cons_inv in Hp.
Qed.

Lemma sorted_permutation l l' :
  Permutation l l' -> sorted leb l = sorted leb l'.
Proof.
  intros Hp. apply strongly_sorted_perm_eq; try apply sorted_sorted.
  rewrite !sorted_perm. exact Hp.
Qed.

End SortedFacts.

Lemma sorted_paths_permutation (l l' : list path) :
  Permutation l l' -> sorted path_leb l = sorted path_leb l'.
Proof.
  apply sorted_permutation.
  - apply path_leb_total.
  - apply path_leb_trans.
  - apply path_leb_antisym.
Qed.

Lemma sorted_paths_sorted (l : list path) :
  StronglySorted (fun p q => path_leb p q = true) (sorted path_leb l).
Proof.
  apply sorted_sorted; [apply path_leb_total|apply path_leb_trans].
Qed.

(** ** The order of the records *)

Lemma flat_map_agree {A B : Type} (f g : A -> list B) l :
  (forall x, In x l -> f x = g x) -> flat_map f l = flat_map g l.
Proof.
  induction l as [|x l IH]; intros H; simpl; [reflexivity|].
  rewrite (H x (or_introl eq_refl)), IH; [reflexivity|].
  intros y Hy. apply H. now right.
Qed.

Lemma starts_increase n l :
  StronglySorted before l -> Forall (span_ok n) l ->
  StronglySorted (fun v1 v2 => fn_start v1 < fn_start v2) l.
Proof.
  induction 1 as [|v l Hs IH Hv]; intros Hall; constructor.
  - apply IH. now inversion Hall.
  - inversion Hall as [|? ? Hok _]; subst.
    eapply Forall_impl; [|exact Hv]. unfold before, span_ok in *.
    intros u Hu. lia.
Qed.

Lemma scan_file_top_to_bottom p lines max_lines allow :
  StronglySorted (fun v1 v2 => fn_start v1 < fn_start v2)
                 (scan_file p lines max_lines allow).
Proof.
  apply (starts_increase (List.length lines)).
  - apply scan_file_sorted.
  - apply Forall_forall. intros v. apply scan_file_ok.
Qed.

(** C7: two runs that see the same files with the same text, enumerated in
    any two orders, produce the same two lists of records; the records
    come file by file, the files in the sorted order of their paths, and
    inside a file by increasing start line. *)
Theorem violation_order_deterministic w w' src_root max_file max_fn allow :
  Permutation (rglob_rs w src_root) (rglob_rs w' src_root) ->
  (forall q, In q (rglob_rs w src_root) -> read_text w q = read_text w' q) ->
  let files := sorted path_leb (rglob_rs w src_root) in
  (file_violations w src_root max_file = file_violations w' src_root max_file /\
   function_violations w src_root max_fn allow
   = function_violations w' src_root max_fn allow) /\
  (StronglySorted (fun p q => path_leb p q = true) files /\
   Permutation files (rglob_rs w src_root)) /\
  (file_violations w src_root max_file = flat_map (file_check w max_file) files /\
   function_violations w src_root max_fn allow
   = flat_map (fun q => scan_file (str q) (read_lines w q) max_fn allow) files) /\
  (forall q, StronglySorted (fun v1 v2 => fn_start v1 < fn_start v2)
               (scan_file (str q) (read_lines w q) max_fn allow)).
Proof.
  intros Hp Hr files.
  assert (Hin : forall q, In q files -> read_text w q = read_text w' q).
  { intros q Hq. apply Hr. eapply Permutation_in; [|exact Hq].
    apply sorted_perm. }
  repeat split.
  - unfold file_violations. rewrite <- (sorted_paths_permutation _ _ Hp).
    apply flat_map_agree. intros q Hq. unfold file_check, read_lines.
    now rewrite (Hin q Hq).
  - unfold function_violations. rewrite <- (sorted_paths_permutation _ _ Hp).
    apply flat_map_agree. intros q Hq. unfold read_lines.
    now rewrite (Hin q Hq).
  - apply sorted_paths_sorted.
  - apply sorted_perm.
  - intros q. apply scan_file_top_to_bottom.
Qed.

Lemma violation_order_deterministic_witness :
  function_violations listing_ab "src" 3 []
  = function_violations listing_ba "src" 3 [] /\
  function_violations listing_ab "src" 3 []
  = [ span_record "src/a/m.rs" "outer" 0 3;
      span_record "src/a.b/m.rs" "outer" 0 3 ].
Proof.
  split; [|reflexivity].
  apply (violation_order_deterministic listing_ab listing_ba "src" 400 3 []).
  - apply perm_swap.
  - reflexivity.
Defined.

(** ** The allow list *)

Lemma visited_cursor_only fuel lines p max_lines allow p' max_lines' allow' st st' :
  cursor st = cursor st' ->
  visited fuel p lines max_lines allow st
  = visited fuel p' lines max_lines' allow' st'.
Proof.
  revert st st'; induction fuel as [|fuel IH]; intros st st' E; simpl;
    [reflexivity|].
  rewrite <- E. destruct (cursor st <? List.length lines); [|reflexivity].
  f_equal. apply IH. unfold scan_step. rewrite <- E.
  destruct (PAT_FN _); [|reflexivity].
  destruct (scan_close _ _ _ _); reflexivity.
Qed.

Lemma reported_at_zero name i j : reported 0 [] name i j = true.
Proof.
  unfold reported. simpl. rewrite andb_true_r. apply Z.gtb_lt. lia.
Qed.

(** Every record is one of the spans the scan closes. *)
Lemma scan_file_among_spans p lines max_lines allow v :
  In v (scan_file p lines max_lines allow) -> In v (scan_file p lines 0 []).
Proof.
  rewrite !scan_file_reported.
  intros (i & n & j & Hi & Hc & _ & ->). exists i, n, j.
  repeat split; try apply Hc.
  - unfold cursors in *.
    now rewrite (visited_cursor_only _ _ _ _ _ p max_lines allow
                   start_state start_state eq_refl).
  - apply reported_at_zero.
Qed.

Lemma scan_file_not_allowed p lines max_lines allow v :
  In v (scan_file p lines max_lines allow) ->
  allowed allow (fn_name v) = false.
Proof.
  rewrite scan_file_reported. intros (i & n & j & _ & _ & R & ->). simpl.
  unfold reported in R. apply andb_true_iff in R. destruct R as [_ R].
  now apply negb_true_iff in R.
Qed.

(** C8: whatever [--allow-fn] values are given, the allow list holds
    [execute_task], so no record of [function_violations] bears that name;
    a function [execute_task] of 80 lines, which the default limit of 50
    would reject under an empty allow list, leaves no record. *)
Theorem execute_task_always_allowed c :
  let a := parse_args c in
  In "execute_task" (allow_fn a) /\
  (forall w v,
     In v (function_violations w (src a) (max_fn_lines a) (allow_fn a)) ->
     fn_name v <> "execute_task") /\
  (forall p,
     scan_file p long_task 50 [] = [ span_record p "execute_task" 0 79 ] /\
     scan_file p long_task (max_fn_lines a) (allow_fn a) = []).
Proof.
  intros a. split; [now left|]. split.
  - intros w v Hv Hname. apply function_violations_in in Hv.
    destruct Hv as (q & Hv). apply scan_file_not_allowed in Hv.
    rewrite Hname in Hv. discriminate.
  - intros p.
    assert (Hall : scan_file p long_task 0 [] = [span_record p "execute_task" 0 79])
      by (vm_compute; reflexivity).
    split; [vm_compute; reflexivity|].
    destruct (scan_file p long_task (max_fn_lines a) (allow_fn a)) as [|v l] eqn:E;
      [reflexivity|exfalso].
    assert (Hv : In v (scan_file p long_task (max_fn_lines a) (allow_fn a)))
      by (rewrite E; now left).
    pose proof (scan_file_not_allowed _ _ _ _ _ Hv) as Hn.
    apply scan_file_among_spans in Hv. rewrite Hall in Hv.
    destruct Hv as [<-|[]]. discriminate.
Qed.

Lemma execute_task_always_allowed_witness :
  In (span_record "src/m.rs" "outer" 0 3)
     (function_violations one_file "src" 3 ["execute_task"; "one"]) /\
  fn_name (span_record "src/m.rs" "outer" 0 3) <> "execute_task".
Proof.
  assert (H : In (span_record "src/m.rs" "outer" 0 3)
                 (function_violations one_file "src" 3 ["execute_task"; "one"]))
    by (vm_compute; now left).
  split; [exact H|].
  destruct (execute_task_always_allowed
              {| given_src := None; given_max_file_lines := None;
                 given_max_fn_lines := Some 3%Z; given_allow_fn := ["one"];
                 given_strict_errors := false;
                 given_max_raw_eprintln := None |}) as (_ & Hno & _).
  exact (Hno one_file _ H).
Defined.

(** ** The verdict *)


Lemma exceeded_some max_raw ep b :
  exceeded max_raw ep = Some b <-> max_raw = Some b /\ (Z.of_nat ep > b)%Z.
Proof.
  unfold exceeded. destruct max_raw as [b'|]; [|split; [|intros [H _]]; discriminate].
  destruct (Z.gtb_spec (Z.of_nat ep) b') as [Hgt|Hle]; split.
  - intros [= ->]. split; [reflexivity|lia].
  - intros [[= ->] _]. reflexivity.
  - discriminate.
  - intros [[= ->] Hgt]. lia.
Qed.


(** ** The diagnostics *)

Lemma report_has_no_error_line a file_v fn_v ep n b :
  ~ In (BaselineExceeded n b) (report a file_v fn_v ep).
Proof.
  unfold report. intros H.
  repeat (apply in_app_or in H; destruct H as [H|H]);
    try (apply in_map_iff in H; destruct H as (v & H & _));
    simpl in H; intuition discriminate.
Qed.

(** C2, as stated, fails: with one file of two lines, a file limit of 1
    and a baseline of 0, a file violation exists and the count 2 exceeds
    the baseline, yet the baseline line is not printed. *)
Lemma baseline_line_suppressed :
  file_violations noisy_world (src noisy_args) (max_file_lines noisy_args) <> [] /\
  exceeded (max_raw_eprintln noisy_args)
           (error_pattern_count noisy_world (src noisy_args)) = Some 0%Z /\
  error_pattern_count noisy_world (src noisy_args) = 2 /\
  ~ In (BaselineExceeded 2 0) (fst (main noisy_args noisy_world)) /\
  snd (main noisy_args noisy_world) = 1%Z.
Proof.
  repeat split; try (vm_compute; (reflexivity || discriminate)).
  vm_compute. intuition discriminate.
Qed.

Lemma main_output a w :
  path_exists w (src a) = true ->
  let file_v := file_violations w (src a) (max_file_lines a) in
  let fn_v := function_violations w (src a) (max_fn_lines a) (allow_fn a) in
  let ep := error_pattern_count w (src a) in
  fst (main a w)
  = report a file_v fn_v ep
    ++ match (if nonempty file_v || nonempty fn_v then None
              else exceeded (max_raw_eprintln a) ep) with
       | Some b => [ BaselineExceeded ep b ]
       | None => []
       end.
Proof.
  intros E file_v fn_v ep. unfold main. rewrite E. cbn [negb].
  fold file_v fn_v ep.
  destruct (nonempty file_v || nonempty fn_v); cbn [fst];
    [now rewrite app_nil_r|].
  destruct (exceeded (max_raw_eprintln a) ep); cbn [fst]; [reflexivity|].
  destruct (strict_errors a && (0 <? ep)); cbn [fst]; now rewrite app_nil_r.
Qed.

(** What [main] prints when the source root exists and no read raises:
    the report, whatever failure applies, and the baseline line exactly
    when there is no file and no function violation, a baseline is set and
    the count exceeds it. *)
Lemma main_prints a w :
  path_exists w (src a) = true ->
  let file_v := file_violations w (src a) (max_file_lines a) in
  let fn_v := function_violations w (src a) (max_fn_lines a) (allow_fn a) in
  let ep := error_pattern_count w (src a) in
  (exists rest, fst (main a w) = report a file_v fn_v ep ++ rest) /\
  (forall v, In v file_v -> In (FileViolationItem v) (fst (main a w))) /\
  (forall v, In v (firstn 100 fn_v) ->
             In (FunctionViolationItem v) (fst (main a w))) /\
  In (RawEprintlnCount ep) (fst (main a w)) /\
  (forall n b,
     In (BaselineExceeded n b) (fst (main a w)) <->
     file_v = [] /\ fn_v = [] /\ max_raw_eprintln a = Some b /\
     (Z.of_nat ep > b)%Z /\ n = ep).
Proof.
  intros E file_v fn_v ep.
  pose proof (main_output a w E) as Hout. cbv zeta in Hout.
  fold file_v fn_v ep in Hout. rewrite Hout.
  split; [now eexists|].
  split; [|split; [|split]].
  - intros v Hv. apply in_or_app. left. unfold report.
    apply in_or_app. right. apply in_or_app. left. now apply in_map.
  - intros v Hv. apply in_or_app. left. unfold report.
    do 3 (apply in_or_app; right). apply in_or_app. left. now apply in_map.
  - apply in_or_app. left. unfold report.
    do 4 (apply in_or_app; right). now left.
  - intros n b. rewrite in_app_iff. split.
    + intros [H|H]; [now apply report_has_no_error_line in H|].
      destruct (nonempty file_v) eqn:Nf; [destruct H|].
      destruct (nonempty fn_v) eqn:Nn; [destruct H|]. cbn [orb] in H.
      destruct (exceeded (max_raw_eprintln a) ep) as [b'|] eqn:X; [|destruct H].
      destruct H as [[= <- <-]|[]]. apply exceeded_some in X.
      destruct file_v; [|discriminate]. destruct fn_v; [|discriminate]. tauto.
    + intros (Hf & Hn & Hb & Hgt & ->). right. rewrite Hf, Hn. cbn [nonempty orb].
      assert (X : exceeded (max_raw_eprintln a) ep = Some b)
        by (apply exceeded_some; tauto).
      rewrite X. now left.
Qed.

(** * Further properties of [quality_gate.py] *)

(** ** Braces are counted, not nested *)

Lemma scan_line_opened s d :
  scan_line s true d
  = (true, (d + Z.of_nat (count_char "{" s) - Z.of_nat (count_char "}" s))%Z).
Proof.
  revert d; induction s as [|c s IH]; intros d; simpl.
  - f_equal. lia.
  - destruct (Ascii.eqb c "{") eqn:O.
    + apply Ascii.eqb_eq in O. subst c. rewrite IH. simpl. f_equal. lia.
    + destruct (Ascii.eqb c "}") eqn:C; simpl; rewrite IH; f_equal; lia.
Qed.

Lemma scan_line_unopened s d :
  scan_line s false d
  = match after_open s with
    | None => (false, d)
    | Some rest =>
        (true, (d + 1 + Z.of_nat (count_char "{" rest)
                - Z.of_nat (count_char "}" rest))%Z)
    end.
Proof.
  revert d; induction s as [|c s IH]; intros d; simpl; [reflexivity|].
  destruct (Ascii.eqb c "{") eqn:O.
  - apply scan_line_opened.
  - rewrite andb_false_r. apply IH.
Qed.

Lemma closed_at_end_even lines i k :
  closed_at_end lines i k <-> braces_even (text_between lines i k).
Proof.
  unfold closed_at_end, braces_even. rewrite scan_line_unopened.
  destruct (after_open (text_between lines i k)) as [rest|]; split.
  - intros H. apply (f_equal snd) in H. cbn [snd] in H.
    exists rest. split; [reflexivity|lia].
  - intros (r & [= <-] & H). f_equal. lia.
  - discriminate.
  - intros (r & H & _). discriminate.
Qed.

(** X1: the character loop only counts.  From a state in which an opening
    brace has been seen, the depth after a text is the depth before plus
    its opening braces minus its closing braces, and it may go below zero;
    before any opening brace, closing braces are ignored: a text without
    opening brace changes nothing, and otherwise the count starts at the
    first opening brace. *)
Theorem scan_line_counts_braces s d :
  scan_line s true d
  = (true, (d + Z.of_nat (count_char "{" s) - Z.of_nat (count_char "}" s))%Z) /\
  scan_line s false d
  = match after_open s with
    | None => (false, d)
    | Some rest =>
        (true, (d + 1 + Z.of_nat (count_char "{" rest)
                - Z.of_nat (count_char "}" rest))%Z)
    end.
Proof. split; [apply scan_line_opened|apply scan_line_unopened]. Qed.

(** X2: the brace scan from line [i] returns [j] exactly when [j] is the
    first line at whose end the text of lines [i..j] holds an opening brace
    and, after the first one, one more closing brace than opening braces:
    the body is closed by numbers of braces, whatever their order. *)
Theorem scan_close_by_counts lines i j :
  scan_close (skipn i lines) i false 0 = Some j <->
  (i <= j < List.length lines /\
   braces_even (text_between lines i j) /\
   forall k, i <= k < j -> ~ braces_even (text_between lines i k)).
Proof.
  rewrite scan_close_iff. rewrite closed_at_end_even.
  split; intros (Hj & Hc & Hmin); repeat split; try lia; try exact Hc;
    intros k Hk; specialize (Hmin k Hk); now rewrite closed_at_end_even in *.
Qed.

(** ** Every line is scanned or inside a closed span *)

Lemma visited_or_covered p lines max_lines allow fuel st k :
  List.length lines - cursor st <= fuel ->
  cursor st <= k < List.length lines ->
  In k (visited fuel p lines max_lines allow st) \/
  covered lines (visited fuel p lines max_lines allow st) k.
Proof.
  revert st; induction fuel as [|fuel IH]; intros st Hf Hk; [lia|].
  simpl. assert (E : (cursor st <? List.length lines) = true)
    by (apply Nat.ltb_lt; lia).
  rewrite E.
  destruct (Nat.eq_dec k (cursor st)) as [->|Hne]; [left; now left|].
  assert (Hlift : forall st',
            cursor st' <= k ->
            List.length lines - cursor st' <= fuel ->
            In k (cursor st :: visited fuel p lines max_lines allow st') \/
            covered lines (cursor st :: visited fuel p lines max_lines allow st') k).
  { intros st' H1 H2. destruct (IH st' H2 ltac:(lia)) as [H|(i & n & j & Hi & H)].
    - left. now right.
    - right. exists i, n, j. split; [now right|exact H]. }
  destruct (step_cases lines st) as [H|[(name & H)|(name & j & H)]].
  - rewrite (step_plain p lines max_lines allow _ H).
    apply Hlift; simpl; lia.
  - rewrite (step_abandoned p lines max_lines allow _ _ H).
    apply Hlift; simpl; lia.
  - rewrite (step_closed p lines max_lines allow _ _ _ H).
    pose proof (scan_close_in_file lines _ _ (proj2 H)) as Hj.
    destruct (le_lt_dec k j) as [Hkj|Hkj].
    + right. exists (cursor st), name, j. split; [now left|]. split; [exact H|lia].
    + apply Hlift; simpl; lia.
Qed.

(** X3: the outer loop leaves out no line by accident.  Every line of the
    file is either a cursor of the loop, where it is tested against the
    signature pattern, or lies after the signature and up to the closing
    line of a span closed from a cursor; never both. *)
Theorem line_scanned_or_covered p lines max_lines allow k :
  k < List.length lines ->
  (In k (cursors p lines max_lines allow) \/
   covered lines (cursors p lines max_lines allow) k) /\
  ~ (In k (cursors p lines max_lines allow) /\
     covered lines (cursors p lines max_lines allow) k).
Proof.
  intros Hk. split.
  - apply visited_or_covered; simpl; lia.
  - intros [Hin (i & n & j & Hi & Hc & Hr)].
    exact (trace_skips _ _ _ _ _ _ _ _ _ _ Hi Hc Hr Hin).
Qed.

Lemma line_scanned_or_covered_witness :
  (In 1 (cursors "a.rs" sample 0 []) \/
   covered sample (cursors "a.rs" sample 0 []) 1) /\
  ~ (In 1 (cursors "a.rs" sample 0 []) /\
     covered sample (cursors "a.rs" sample 0 []) 1).
Proof.
  apply (line_scanned_or_covered "a.rs" sample 0 [] 1).
  vm_compute. repeat constructor.
Defined.

(** ** What a record tells *)

Lemma in_sorted_paths (l : list path) q : In q (sorted path_leb l) <-> In q l.
Proof.
  split; apply Permutation_in;
    [apply sorted_perm|apply Permutation_sym, sorted_perm].
Qed.

Lemma PAT_FN_name line name :
  PAT_FN line = Some name ->
  name <> EmptyString /\ all_chars is_ident name = true.
Proof.
  intros H. apply PAT_FN_matches in H.
  destruct H as (ws0 & g1 & g2 & ws1 & ws2 & rest & _ & _ & _ & _ & _ & _ &
                 Hne & Hid & _).
  now split.
Qed.

(** X4: a record of [function_violations] is true to the file it names.
    Its path is that of an enumerated file; in that file its start line
    matches the signature pattern with the record's name as the function
    name, and the brace scan from the start line closes on its end line,
    which is a line of the file; the name is a non-empty run of letters,
    digits and underscores. *)
Theorem function_record_is_faithful w src_root max_lines allow v :
  In v (function_violations w src_root max_lines allow) ->
  exists q,
    In q (rglob_rs w src_root) /\ fn_path v = str q /\
    closes_at (read_lines w q) (fn_start v - 1) (fn_name v) (fn_end v - 1) /\
    fn_end v <= List.length (read_lines w q) /\
    fn_name v <> EmptyString /\ all_chars is_ident (fn_name v) = true.
Proof.
  unfold function_violations. rewrite in_flat_map.
  intros (q & Hq & Hv). exists q. apply (proj1 (in_sorted_paths _ _)) in Hq.
  pose proof (scan_file_ok _ _ _ _ _ Hv) as Hok.
  apply scan_file_reported in Hv.
  destruct Hv as (i & n & j & _ & Hc & _ & ->). simpl.
  replace (i + 1 - 1) with i by lia. replace (j + 1 - 1) with j by lia.
  unfold span_ok in Hok. simpl in Hok.
  destruct (PAT_FN_name _ _ (proj1 Hc)) as [Hne Hid].
  split; [exact Hq|]. split; [reflexivity|]. split; [exact Hc|].
  split; [lia|]. split; [exact Hne|exact Hid].
Qed.

Lemma function_record_is_faithful_witness :
  exists q,
    In q (rglob_rs one_file "src") /\
    fn_path (span_record "src/m.rs" "outer" 0 3) = str q /\
    closes_at (read_lines one_file q)
              (fn_start (span_record "src/m.rs" "outer" 0 3) - 1)
              (fn_name (span_record "src/m.rs" "outer" 0 3))
              (fn_end (span_record "src/m.rs" "outer" 0 3) - 1) /\
    fn_end (span_record "src/m.rs" "outer" 0 3)
      <= List.length (read_lines one_file q) /\
    fn_name (span_record "src/m.rs" "outer" 0 3) <> EmptyString /\
    all_chars is_ident (fn_name (span_record "src/m.rs" "outer" 0 3)) = true.
Proof.
  apply (function_record_is_faithful one_file "src" 3 []).
  vm_compute. now left.
Defined.

(** X5: the invariant of a function record.  Every record of
    [function_violations] is longer than the limit and bears a name that
    is not in the allow list. *)
Theorem function_record_exceeds_limit w src_root max_lines allow v :
  In v (function_violations w src_root max_lines allow) ->
  (Z.of_nat (fn_length v) > max_lines)%Z /\ allowed allow (fn_name v) = false.
Proof.
  intros Hv. apply function_violations_in in Hv. destruct Hv as (q & Hv).
  split; [|exact (scan_file_not_allowed _ _ _ _ _ Hv)].
  apply scan_file_reported in Hv.
  destruct Hv as (i & n & j & _ & _ & R & ->). simpl.
  unfold reported in R. apply andb_true_iff in R. destruct R as [R _].
  apply Z.gtb_lt in R. lia.
Qed.

Lemma function_record_exceeds_limit_witness :
  (Z.of_nat (fn_length (span_record "src/m.rs" "outer" 0 3)) > 3)%Z /\
  allowed [] (fn_name (span_record "src/m.rs" "outer" 0 3)) = false.
Proof.
  apply (function_record_exceeds_limit one_file "src" 3 []).
  vm_compute. now left.
Defined.

(** X6: the invariant of a file record.  Every record of [file_violations]
    names an enumerated file, carries the number of lines of that file, and
    that number is above the limit; there are at most as many records as
    enumerated files. *)
Theorem file_record_exceeds_limit w src_root max_lines :
  (forall v, In v (file_violations w src_root max_lines) ->
     exists q, In q (rglob_rs w src_root) /\ file_path v = str q /\
               file_lines v = List.length (read_lines w q) /\
               (Z.of_nat (file_lines v) > max_lines)%Z) /\
  List.length (file_violations w src_root max_lines)
    <= List.length (rglob_rs w src_root).
Proof.
  split.
  - intros v. unfold file_violations. rewrite in_flat_map.
    intros (q & Hq & Hv). exists q. apply (proj1 (in_sorted_paths _ _)) in Hq.
    unfold file_check in Hv.
    destruct (Z.gtb_spec (Z.of_nat (List.length (read_lines w q))) max_lines)
      as [Hgt|Hle]; [|destruct Hv].
    destruct Hv as [<-|[]]. simpl. repeat split; auto. lia.
  - rewrite file_violations_filter, length_map.
    rewrite <- (Permutation_length (sorted_perm path_leb (rglob_rs w src_root))).
    apply filter_length_le.
Qed.

Lemma file_record_exceeds_limit_witness :
  exists q, In q (rglob_rs one_file "src") /\
            file_path {| file_path := "src/m.rs"; file_lines := 7 |} = str q /\
            file_lines {| file_path := "src/m.rs"; file_lines := 7 |}
            = List.length (read_lines one_file q) /\
            (Z.of_nat (file_lines {| file_path := "src/m.rs"; file_lines := 7 |})
             > 6)%Z.
Proof.
  apply (proj1 (file_record_exceeds_limit one_file "src" 6)).
  vm_compute. now left.
Defined.

(** ** Looser limits report less *)

Lemma reported_monotone m m' a a' name i j :
  (m <= m')%Z ->
  (forall n, allowed a n = true -> allowed a' n = true) ->
  reported m' a' name i j = true -> reported m a name i j = true.
Proof.
  unfold reported. intros Hm Ha H. apply andb_true_iff in H.
  destruct H as [H1 H2]. apply andb_true_iff. split.
  - apply Z.gtb_lt in H1. apply Z.gtb_lt. lia.
  - apply negb_true_iff in H2. apply negb_true_iff.
    destruct (allowed a name) eqn:E; [|reflexivity].
    apply Ha in E. congruence.
Qed.

Lemma scan_file_monotone p lines m m' a a' v :
  (m <= m')%Z ->
  (forall n, allowed a n = true -> allowed a' n = true) ->
  In v (scan_file p lines m' a') -> In v (scan_file p lines m a).
Proof.
  intros Hm Ha. rewrite !scan_file_reported.
  intros (i & n & j & Hi & Hc & R & ->). exists i, n, j.
  repeat split; try apply Hc.
  - unfold cursors in *.
    now rewrite (visited_cursor_only _ _ _ _ _ p m' a'
                   start_state start_state eq_refl).
  - exact (reported_monotone _ _ _ _ _ _ _ Hm Ha R).
Qed.

(** X7: raising a limit or adding names to the allow list never adds a
    record.  Under a higher line limit and an allow list that exempts at
    least the same names, every function record was a record before; under
    a higher file limit every file record was a record before. *)
Theorem looser_limits_report_less w src_root m m' a a' :
  (m <= m')%Z ->
  (forall n, In n a -> In n a') ->
  (forall v, In v (function_violations w src_root m' a') ->
             In v (function_violations w src_root m a)) /\
  (forall v, In v (file_violations w src_root m') ->
             In v (file_violations w src_root m)).
Proof.
  intros Hm Ha.
  assert (Ha' : forall n, allowed a n = true -> allowed a' n = true).
  { intros n H. unfold allowed in *. apply existsb_exists in H.
    destruct H as (x & Hx & E). apply existsb_exists. exists x. auto. }
  split; intros v.
  - unfold function_violations. rewrite !in_flat_map.
    intros (q & Hq & Hv). exists q. split; [exact Hq|].
    exact (scan_file_monotone _ _ _ _ _ _ _ Hm Ha' Hv).
  - rewrite !file_violations_filter, !in_map_iff.
    intros (q & <- & Hq). exists q. split; [reflexivity|].
    apply filter_In in Hq. destruct Hq as [Hq Hgt]. apply filter_In.
    split; [exact Hq|]. apply Z.gtb_lt in Hgt. apply Z.gtb_lt. lia.
Qed.

Lemma looser_limits_report_less_witness :
  In (span_record "src/m.rs" "outer" 0 3)
     (function_violations one_file "src" 3 ["one"]) /\
  In (span_record "src/m.rs" "outer" 0 3)
     (function_violations one_file "src" 0 []).
Proof.
  assert (H1 : (0 <= 3)%Z) by lia.
  assert (H2 : forall n : string, In n [] -> In n ["one"]) by (intros n []).
  assert (H3 : In (span_record "src/m.rs" "outer" 0 3)
                  (function_violations one_file "src" 3 ["one"]))
    by (vm_compute; now left).
  split; [exact H3|].
  exact (proj1 (looser_limits_report_less one_file "src" 0 3 [] ["one"] H1 H2)
               _ H3).
Defined.

(** ** The count of the discouraged call *)

Lemma prefix_split a s : prefix a s = true -> exists t, s = (a ++ t)%string.
Proof.
  revert s; induction a as [|c a IH]; intros s; simpl.
  - intros _. now exists s.
  - destruct s as [|d s]; [discriminate|]. cbn [prefix].
    destruct (ascii_dec c d) as [<-|]; [|discriminate].
    intros H. destruct (IH _ H) as (t & ->). now exists t.
Qed.

Lemma prefix_app a t : prefix a (a ++ t) = true.
Proof.
  induction a as [|c a IH]; cbn [append prefix]; [now destruct t|].
  destruct (ascii_dec c c); [exact IH|congruence].
Qed.

Lemma count_go_skip sub (u t : string) :
  count_go sub (u ++ t) (String.length u) = count_go sub t 0.
Proof. induction u as [|c u IH]; simpl; [reflexivity|exact IH]. Qed.

Lemma positions_skip (u t : string) :
  count_char "e" u = 0 ->
  positions "eprintln!(" (u ++ t) = positions "eprintln!(" t.
Proof.
  induction u as [|c u IH]; [reflexivity|].
  cbn [count_char]. destruct (Ascii.eqb c "e") eqn:E; [discriminate|].
  intros H. cbn [append positions]. rewrite (IH H).
  cbn [prefix]. destruct (ascii_dec "e" c) as [<-|]; [discriminate|reflexivity].
Qed.

Lemma count_positions_bounded n s :
  String.length s <= n ->
  Text.count s "eprintln!(" = positions "eprintln!(" s.
Proof.
  unfold Text.count. revert s; induction n as [|n IH]; intros s Hn.
  - destruct s; simpl in Hn; [reflexivity|lia].
  - destruct s as [|c r]; [reflexivity|].
    cbn [count_go positions].
    destruct (prefix "eprintln!(" (String c r)) eqn:P.
    + destruct (prefix_split _ _ P) as (t & E).
      change ("eprintln!(" ++ t)%string
        with (String "e" ("println!(" ++ t)%string) in E.
      injection E as -> ->.
      change (String.length "eprintln!(" - 1) with (String.length "println!(").
      change (S (count_go "eprintln!(" ("println!(" ++ t)
                   (String.length "println!("))
              = 1 + positions "eprintln!(" ("println!(" ++ t)).
      rewrite count_go_skip, positions_skip by reflexivity.
      rewrite IH; [reflexivity|].
      simpl in Hn. lia.
    + rewrite IH; [reflexivity|]. simpl in Hn. lia.
Qed.

Lemma count_positions s :
  Text.count s "eprintln!(" = positions "eprintln!(" s.
Proof. exact (count_positions_bounded _ s (le_n _)). Qed.

Lemma fold_left_sum (f : path -> nat) l n :
  fold_left (fun count q => count + f q) l n = n + list_sum (map f l).
Proof.
  revert n; induction l as [|q l IH]; intros n; simpl; [lia|].
  rewrite IH. lia.
Qed.

Lemma list_sum_perm (l l' : list nat) :
  Permutation l l' -> list_sum l = list_sum l'.
Proof. induction 1; simpl; lia. Qed.

(** X8: [error_pattern_count] is the number of places, in all enumerated
    files together, at which the text [eprintln!(] starts.  Counting
    matches that do not overlap loses none, since the token cannot overlap
    itself, and the order in which the files are read does not matter. *)
Theorem error_pattern_count_is_occurrences w src_root :
  error_pattern_count w src_root
  = list_sum (map (fun q => positions "eprintln!(" (read_text w q))
                  (rglob_rs w src_root)).
Proof.
  unfold error_pattern_count.
  rewrite (fold_left_sum (fun q => Text.count (read_text w q) "eprintln!(")).
  simpl. rewrite (map_ext _ _ (fun q => count_positions (read_text w q))).
  apply list_sum_perm, Permutation_map, sorted_perm.
Qed.

(** ** The report and the exit status *)

Lemma filter_map_all {A B : Type} (f : B -> bool) (g : A -> B) l :
  (forall x, f (g x) = true) -> filter f (map g l) = map g l.
Proof.
  intros H. induction l as [|x l IH]; simpl; [reflexivity|].
  now rewrite H, IH.
Qed.

Lemma filter_map_none {A B : Type} (f : B -> bool) (g : A -> B) l :
  (forall x, f (g x) = false) -> filter f (map g l) = [].
Proof.
  intros H. induction l as [|x l IH]; simpl; [reflexivity|].
  now rewrite H, IH.
Qed.

Lemma main_output_tail a w :
  path_exists w (src a) = true ->
  exists tail,
    fst (main a w)
    = report a (file_violations w (src a) (max_file_lines a))
               (function_violations w (src a) (max_fn_lines a) (allow_fn a))
               (error_pattern_count w (src a)) ++ tail /\
    (tail = [] \/ exists n b, tail = [ BaselineExceeded n b ]).
Proof.
  intros E. pose proof (main_output a w E) as H. cbv zeta in H.
  eexists. split; [exact H|].
  destruct (if nonempty _ || nonempty _ then None else exceeded _ _) as [b|].
  - right. now exists (error_pattern_count w (src a)), b.
  - now left.
Qed.

(** X9: the report itemises every file violation, but at most 100 function
    violations: its function items are the first 100 records, in order,
    while the line above them gives the number of all records. *)
Theorem report_caps_function_items a w :
  path_exists w (src a) = true ->
  let file_v := file_violations w (src a) (max_file_lines a) in
  let fn_v := function_violations w (src a) (max_fn_lines a) (allow_fn a) in
  filter is_function_item (fst (main a w))
  = map FunctionViolationItem (firstn 100 fn_v) /\
  List.length (filter is_function_item (fst (main a w)))
  = Nat.min 100 (List.length fn_v) /\
  In (FunctionViolationCount (List.length fn_v)) (fst (main a w)) /\
  filter is_file_item (fst (main a w)) = map FileViolationItem file_v.
Proof.
  intros E file_v fn_v.
  destruct (main_output_tail a w E) as (tail & Hout & Htail).
  fold file_v fn_v in Hout. rewrite Hout. unfold report.
  assert (Hfn : filter is_function_item
                  (([Banner; FileMaxLines (max_file_lines a);
                     FnMaxLines (max_fn_lines a) (sorted_set (allow_fn a));
                     FileViolationCount (List.length file_v)]
                    ++ map FileViolationItem file_v
                    ++ [FunctionViolationCount (List.length fn_v)]
                    ++ map FunctionViolationItem (firstn 100 fn_v)
                    ++ [RawEprintlnCount (error_pattern_count w (src a))])
                   ++ tail)
                = map FunctionViolationItem (firstn 100 fn_v)).
  { rewrite !filter_app.
    rewrite (filter_map_none is_function_item FileViolationItem) by reflexivity.
    rewrite (filter_map_all is_function_item FunctionViolationItem) by reflexivity.
    simpl. rewrite app_nil_r.
    destruct Htail as [->|(n & b & ->)]; simpl; now rewrite app_nil_r. }
  split; [exact Hfn|]. split; [|split].
  - rewrite Hfn, length_map, length_firstn. reflexivity.
  - apply in_or_app. left. apply in_or_app. right.
    apply in_or_app. right. now left.
  - rewrite !filter_app.
    rewrite (filter_map_all is_file_item FileViolationItem) by reflexivity.
    rewrite (filter_map_none is_file_item FunctionViolationItem) by reflexivity.
    simpl. destruct Htail as [->|(n & b & ->)]; simpl; now rewrite !app_nil_r.
Qed.

Lemma report_caps_function_items_witness :
  filter is_function_item (fst (main noisy_args noisy_world))
  = map FunctionViolationItem
        (firstn 100 (function_violations noisy_world (src noisy_args)
                       (max_fn_lines noisy_args) (allow_fn noisy_args))).
Proof.
  exact (proj1 (report_caps_function_items noisy_args noisy_world eq_refl)).
Defined.

(** X10: an error line is never printed by a run that passes.  The line
    for a missing source root comes with exit status 2, and then it is the
    only line printed; the line for an exceeded baseline comes with exit
    status 1. *)
Theorem error_line_means_failure a w :
  (forall s, In (SourceRootNotFound s) (fst (main a w)) ->
             main a w = ([ SourceRootNotFound (str (Path (src a))) ], 2%Z)) /\
  (forall n b, In (BaselineExceeded n b) (fst (main a w)) ->
               snd (main a w) = 1%Z).
Proof.
  destruct (path_exists w (src a)) eqn:E.
  - destruct (main_output_tail a w E) as (tail & Hout & Htail). split.
    + intros s Hs. exfalso. rewrite Hout in Hs. apply in_app_or in Hs.
      destruct Hs as [Hs|Hs].
      * unfold report in Hs.
        repeat (apply in_app_or in Hs; destruct Hs as [Hs|Hs]);
          try (apply in_map_iff in Hs; destruct Hs as (v & Hs & _));
          simpl in Hs; intuition discriminate.
      * destruct Htail as [->|(n & b & ->)]; simpl in Hs;
          intuition discriminate.
    + intros n b Hb. clear Hout Htail tail. revert Hb.
      unfold main. rewrite E. cbn [negb].
      destruct (nonempty _ || nonempty _); [reflexivity|].
      destruct (exceeded _ _); [reflexivity|].
      destruct (strict_errors a && _); [reflexivity|].
      cbn [fst]. intros Hb. now apply report_has_no_error_line in Hb.
  - unfold main. rewrite E. simpl. split; [reflexivity|].
    intros n b [H|[]]. discriminate.
Qed.

Lemma error_line_means_failure_witness :
  snd (main baseline_args noisy_world) = 1%Z.
Proof.
  apply (proj2 (error_line_means_failure baseline_args noisy_world) 2 0%Z).
  vm_compute. do 6 right. now left.
Defined.

(** * Properties of [release_check.py] *)

(** ** The version pattern *)

Lemma skip_run_app f (u s : string) :
  all_chars f u = true -> stops f s ->
  ReleaseCheck.skip_run f (u ++ s) = s.
Proof.
  induction u as [|c u IH]; simpl; intros Hu Hs.
  - destruct s as [|c s]; simpl in *; [reflexivity|]. now rewrite Hs.
  - apply andb_true_iff in Hu. destruct Hu as [-> Hu]. now apply IH.
Qed.

Lemma skip_run_split f s :
  exists u, s = (u ++ ReleaseCheck.skip_run f s)%string /\
            all_chars f u = true /\ stops f (ReleaseCheck.skip_run f s).
Proof.
  induction s as [|c s (u & E & Hu & Hst)]; simpl.
  - now exists EmptyString.
  - destruct (f c) eqn:C.
    + exists (String c u). simpl. rewrite C, Hu. now rewrite <- E.
    + exists EmptyString. simpl. auto.
Qed.

Lemma run1_app f (u s : string) :
  run_of f u -> stops f s -> ReleaseCheck.run1 f (u ++ s) = Some s.
Proof.
  intros [Hne Hu] Hs. destruct u as [|c u]; [congruence|]. simpl in *.
  apply andb_true_iff in Hu. destruct Hu as [-> Hu].
  now rewrite skip_run_app.
Qed.

Lemma run1_split f s r :
  ReleaseCheck.run1 f s = Some r ->
  exists u, s = (u ++ r)%string /\ run_of f u /\ stops f r.
Proof.
  destruct s as [|c s]; simpl; [discriminate|].
  destruct (f c) eqn:C; [|discriminate]. intros [= <-].
  destruct (skip_run_split f s) as (u & E & Hu & Hst).
  exists (String c u). unfold run_of. simpl. rewrite C, Hu, <- E.
  repeat split; congruence.
Qed.

Lemma at_end_iff s :
  ReleaseCheck.at_end s = true <->
  s = EmptyString \/ s = String "010" EmptyString.
Proof.
  destruct s as [|c [|d s]]; simpl.
  - tauto.
  - rewrite Ascii.eqb_eq. split; [intros ->; now right|].
    intros [H|H]; congruence.
  - split; [discriminate|]. intros [H|H]; discriminate.
Qed.

Lemma sign_cases c :
  ReleaseCheck.is_sign c = true -> c = "-"%char \/ c = "+"%char.
Proof.
  unfold ReleaseCheck.is_sign. intros H. apply orb_true_iff in H.
  destruct H as [H|H]; apply Ascii.eqb_eq in H; auto.
Qed.

Lemma SEMVER_sound s : ReleaseCheck.SEMVER s = true -> matches_SEMVER s.
Proof.
  unfold ReleaseCheck.SEMVER. intros H.
  destruct (ReleaseCheck.run1 ReleaseCheck.is_digit s) as [s1|] eqn:R1;
    [|discriminate].
  apply run1_split in R1. destruct R1 as (a & -> & Ha & _).
  destruct (lit "." s1) as [s2|] eqn:L1; [|discriminate].
  apply lit_split in L1. subst s1.
  destruct (ReleaseCheck.run1 ReleaseCheck.is_digit s2) as [s3|] eqn:R2;
    [|discriminate].
  apply run1_split in R2. destruct R2 as (b & -> & Hb & _).
  destruct (lit "." s3) as [s4|] eqn:L2; [|discriminate].
  apply lit_split in L2. subst s3.
  destruct (ReleaseCheck.run1 ReleaseCheck.is_digit s4) as [s5|] eqn:R3;
    [|discriminate].
  apply run1_split in R3. destruct R3 as (c & -> & Hc & _).
  unfold ReleaseCheck.tag_then_end in H.
  destruct s5 as [|c0 rest].
  { left. exists a, b, c, EmptyString. repeat split; try apply Ha;
      try apply Hb; try apply Hc. now left. }
  apply orb_true_iff in H. destruct H as [H|H].
  - destruct (ReleaseCheck.is_sign c0) eqn:Sg; [|discriminate].
    destruct (ReleaseCheck.run1 ReleaseCheck.is_tag rest) as [rest'|] eqn:R4;
      [|discriminate].
    apply run1_split in R4. destruct R4 as (t & -> & Ht & _).
    apply at_end_iff in H.
    assert (Htail : exists sign t0, String c0 t = String sign t0 /\
                      ReleaseCheck.is_sign sign = true /\
                      run_of ReleaseCheck.is_tag t0) by now exists c0, t.
    destruct H as [->| ->]; [left|right];
      exists a, b, c, (String c0 t); repeat split;
        try apply Ha; try apply Hb; try apply Hc; now right.
  - apply at_end_iff in H. destruct H as [H|H]; [discriminate|].
    right. exists a, b, c, EmptyString. rewrite H.
    repeat split; try apply Ha; try apply Hb; try apply Hc. now left.
Qed.

Lemma SEMVER_complete s : matches_SEMVER s -> ReleaseCheck.SEMVER s = true.
Proof.
  assert (Hfin : forall fin : string,
            fin = EmptyString \/ fin = String "010" EmptyString ->
            semver_with fin s -> ReleaseCheck.SEMVER s = true).
  { intros fin Hf (a & b & c & tail & -> & Ha & Hb & Hc & Htail).
    unfold ReleaseCheck.SEMVER.
    rewrite (run1_app _ a) by (auto; reflexivity).
    rewrite lit_app.
    rewrite (run1_app _ b) by (auto; reflexivity).
    rewrite lit_app.
    assert (Hend : ReleaseCheck.at_end fin = true) by now apply at_end_iff.
    destruct Htail as [->|(sign & t & -> & Hs & Ht)].
    - rewrite (run1_app _ c); auto.
      + destruct Hf as [->| ->]; reflexivity.
      + destruct Hf as [->| ->]; reflexivity.
    - rewrite (run1_app _ c); auto.
      + change (String sign t ++ fin)%string with (String sign (t ++ fin)).
        unfold ReleaseCheck.tag_then_end. rewrite Hs.
        rewrite (run1_app _ t); auto.
        * now rewrite Hend.
        * destruct Hf as [->| ->]; reflexivity.
      + apply sign_cases in Hs. destruct Hs as [->| ->]; reflexivity. }
  intros [H|H]; [apply (Hfin EmptyString)|apply (Hfin (String "010" EmptyString))];
    auto.
Qed.

(** X11: the version pattern accepts exactly the texts made of three
    non-empty runs of digits joined by dots, followed by nothing or by a
    sign [-] or [+] and a non-empty run of letters, digits, dots,
    underscores and hyphens; since [$] is used, one line feed may end the
    text. *)
Theorem SEMVER_language s :
  ReleaseCheck.SEMVER s = true <-> matches_SEMVER s.
Proof. split; [apply SEMVER_sound|apply SEMVER_complete]. Qed.

(** ** [strip] and [in] *)

Lemma rstrip_all_space b :
  all_chars is_space b = true -> ReleaseCheck.rstrip b = EmptyString.
Proof.
  induction b as [|c b IH]; simpl; [reflexivity|]. intros H.
  apply andb_true_iff in H. destruct H as [-> H]. now rewrite (IH H).
Qed.

Lemma rstrip_app (s b : string) :
  all_chars is_space b = true ->
  ReleaseCheck.rstrip (s ++ b) = ReleaseCheck.rstrip s.
Proof.
  intros Hb. induction s as [|c s IH]; simpl.
  - now apply rstrip_all_space.
  - now rewrite IH.
Qed.

Lemma rstrip_last u x c :
  ReleaseCheck.rstrip u = (x ++ String c EmptyString)%string ->
  is_space c = false.
Proof.
  revert x; induction u as [|d u IH]; intros x; simpl.
  - destruct x; discriminate.
  - destruct (is_empty (ReleaseCheck.rstrip u) && is_space d) eqn:E.
    + destruct x; discriminate.
    + destruct x as [|e x]; simpl.
      * intros [= -> H]. rewrite H in E. simpl in E. exact E.
      * intros [= _ H]. exact (IH _ H).
Qed.

Lemma skip_spaces_pad (a s : string) :
  all_chars is_space a = true -> skip_spaces (a ++ s) = skip_spaces s.
Proof.
  induction a as [|c a IH]; simpl; [reflexivity|]. intros H.
  apply andb_true_iff in H. destruct H as [-> H]. now apply IH.
Qed.

Lemma skip_spaces_all_space b :
  all_chars is_space b = true -> skip_spaces b = EmptyString.
Proof.
  induction b as [|c b IH]; simpl; [reflexivity|]. intros H.
  apply andb_true_iff in H. destruct H as [-> H]. now apply IH.
Qed.

Lemma strip_app (t b : string) :
  all_chars is_space b = true ->
  ReleaseCheck.strip (t ++ b) = ReleaseCheck.strip t.
Proof.
  unfold ReleaseCheck.strip. intros Hb. induction t as [|c t IH].
  - simpl. now rewrite (skip_spaces_all_space _ Hb).
  - cbn [append skip_spaces]. destruct (is_space c); [exact IH|].
    now apply (rstrip_app (String c t)).
Qed.

Lemma strip_pad (a t b : string) :
  all_chars is_space a = true -> all_chars is_space b = true ->
  ReleaseCheck.strip (a ++ t ++ b) = ReleaseCheck.strip t.
Proof.
  intros Ha Hb. unfold ReleaseCheck.strip. rewrite (skip_spaces_pad _ _ Ha).
  now apply strip_app.
Qed.

Lemma strip_all_space t :
  all_chars is_space t = true -> ReleaseCheck.strip t = EmptyString.
Proof.
  intros H. unfold ReleaseCheck.strip.
  now rewrite (skip_spaces_all_space _ H).
Qed.

Lemma contains_unfold sub s :
  ReleaseCheck.contains sub s
  = if prefix sub s then true
    else match s with
         | String _ rest => ReleaseCheck.contains sub rest
         | EmptyString => false
         end.
Proof. destruct s; reflexivity. Qed.

Lemma contains_occurs sub s :
  ReleaseCheck.contains sub s = true <-> occurs sub s.
Proof.
  unfold occurs. split.
  - induction s as [|c s IH]; rewrite contains_unfold.
    + destruct (prefix sub EmptyString) eqn:P; [|discriminate].
      intros _. destruct (prefix_split _ _ P) as (t & E).
      now exists EmptyString, t.
    + destruct (prefix sub (String c s)) eqn:P.
      * intros _. destruct (prefix_split _ _ P) as (t & E).
        now exists EmptyString, t.
      * intros H. destruct (IH H) as (a & b & ->).
        now exists (String c a), b.
  - intros (a & b & ->). induction a as [|c a IH]; rewrite contains_unfold.
    + simpl. now rewrite prefix_app.
    + destruct (prefix sub (String c a ++ sub ++ b)); [reflexivity|exact IH].
Qed.

Lemma semver_stripped t :
  ReleaseCheck.SEMVER (ReleaseCheck.strip t) = true <->
  semver_with EmptyString (ReleaseCheck.strip t).
Proof.
  split.
  - intros H. apply SEMVER_sound in H. destruct H as [H|H]; [exact H|].
    exfalso. destruct H as (a & b & c & tail & E & _).
    rewrite <- !append_assoc in E. unfold ReleaseCheck.strip in E.
    apply rstrip_last in E. discriminate.
  - intros H. apply SEMVER_complete. now left.
Qed.

Lemma semver_not_empty s : semver_with EmptyString s -> s <> EmptyString.
Proof.
  intros (a & b & c & tail & -> & [Ha _] & _).
  destruct a; [congruence|discriminate].
Qed.

(** ** The verdict of the release check *)

Lemma find_missing_none w (l : list path) :
  find (fun q => negb (path_exists w (str q))) l = None <->
  forall q, In q l -> path_exists w (str q) = true.
Proof.
  split.
  - intros H q Hq. apply (find_none _ _ H) in Hq. now apply negb_false_iff.
  - intros H. induction l as [|q l IH]; [reflexivity|]. simpl.
    rewrite (H q (or_introl eq_refl)). simpl. apply IH.
    intros q' Hq'. apply H. now right.
Qed.

Lemma find_section_none text (l : list string) :
  find (fun section => negb (ReleaseCheck.contains section text)) l = None <->
  forall section, In section l -> occurs section text.
Proof.
  split.
  - intros H s Hs. apply (find_none _ _ H) in Hs.
    apply negb_false_iff in Hs. now apply contains_occurs.
  - intros H. induction l as [|s l IH]; [reflexivity|]. simpl.
    rewrite (proj2 (contains_occurs s text) (H s (or_introl eq_refl))).
    simpl. apply IH. intros s' Hs'. apply H. now right.
Qed.

Lemma required_files_exist root w :
  (forall q, In q [ (root ++ ["VERSION"])%list; (root ++ ["CHANGELOG.md"])%list;
                    (root ++ ["README.md"])%list; (root ++ ["LICENSE"])%list ] ->
             path_exists w (str q) = true) <->
  (forall f, In f required_names ->
             path_exists w (str (root ++ [f])) = true).
Proof.
  unfold required_names. split.
  - intros H f Hf. apply H. simpl in *.
    destruct Hf as [<-|[<-|[<-|[<-|[]]]]]; auto.
  - intros H q Hq. simpl in Hq.
    destruct Hq as [<-|[<-|[<-|[<-|[]]]]]; apply H; simpl; auto.
Qed.

Lemma required_files_found root w :
  find (fun q => negb (path_exists w (str q)))
       [ (root ++ ["VERSION"])%list; (root ++ ["CHANGELOG.md"])%list;
         (root ++ ["README.md"])%list; (root ++ ["LICENSE"])%list ] = None <->
  (forall f, In f required_names ->
             path_exists w (str (root ++ [f])) = true).
Proof.
  rewrite find_missing_none. apply required_files_exist.
Qed.

(** What [main] returns when no read raises: the three texts of success
    and 0 exactly when the four required files exist, the text of VERSION
    without the white space around it has the shape of a version (and no
    line feed at its end), the change log holds the heading
    [## [Unreleased]] and the README holds the three required headings; in
    every other case one text that starts with [ERROR: ] and 1. *)
Lemma release_check_verdict root w :
  (release_ok root w /\
   ReleaseCheck.main root w
   = ([ "release_check_ok"; ("repo_root=" ++ str root)%string;
        ("version="
         ++ ReleaseCheck.strip (read_text w (root ++ ["VERSION"])%list))%string ],
      0%Z)) \/
  (~ release_ok root w /\
   exists msg, ReleaseCheck.main root w = ([ ("ERROR: " ++ msg)%string ], 1%Z)).
Proof.
  unfold ReleaseCheck.main, release_ok. cbv zeta.
  destruct (find _ [_; _; _; _]) as [q|] eqn:F.
  { right. split; [|now eexists].
    intros (Hex & _). apply (proj2 (required_files_found root w)) in Hex.
    discriminate (eq_trans (eq_sym F) Hex). }
  pose proof (proj1 (required_files_found root w) F) as Hex.
  set (version := ReleaseCheck.strip (read_text w (root ++ ["VERSION"]))).
  destruct (is_empty version) eqn:Em.
  { right. split; [|now eexists]. intros (_ & Hv & _).
    apply semver_not_empty in Hv. destruct version; [congruence|discriminate]. }
  destruct (ReleaseCheck.SEMVER version) eqn:Sv; cbn [negb].
  2:{ right. split; [|now eexists]. intros (_ & Hv & _).
      apply (proj2 (semver_stripped _)) in Hv.
      discriminate (eq_trans (eq_sym Sv) Hv). }
  apply (proj1 (semver_stripped _)) in Sv.
  destruct (ReleaseCheck.contains "## [Unreleased]" _) eqn:Cl; cbn [negb].
  2:{ right. split; [|now eexists]. intros (_ & _ & Hc & _).
      apply (proj2 (contains_occurs _ _)) in Hc.
      discriminate (eq_trans (eq_sym Cl) Hc). }
  apply (proj1 (contains_occurs _ _)) in Cl.
  destruct (find _ ReleaseCheck.required_sections) as [s|] eqn:Fs.
  { right. split; [|now eexists]. intros (_ & _ & _ & Hs).
    apply (proj2 (find_section_none _ _)) in Hs.
    discriminate (eq_trans (eq_sym Fs) Hs). }
  pose proof (proj1 (find_section_none _ _) Fs) as Hs.
  left. split; [|reflexivity]. auto.
Qed.

(** X13: the files are looked for in the order VERSION, CHANGELOG.md,
    README.md, LICENSE, and the first one that is missing is the one the
    error names; nothing else about the repository matters then: no file
    is read. *)
Theorem first_missing_file_reported root w pre f post :
  required_names = pre ++ f :: post ->
  (forall g, In g pre -> path_exists w (str (root ++ [g])) = true) ->
  path_exists w (str (root ++ [f])) = false ->
  ReleaseCheck.main root w
  = ReleaseCheck.fail ("missing required file: " ++ str (root ++ [f])).
Proof.
  unfold required_names, ReleaseCheck.main. intros E Hpre Hf.
  destruct pre as [|g1 [|g2 [|g3 [|g4 pre]]]]; simpl in E.
  - injection E as <- _. simpl. now rewrite Hf.
  - injection E as <- <- _. simpl.
    rewrite (Hpre "VERSION") by (simpl; auto). simpl. now rewrite Hf.
  - injection E as <- <- <- _. simpl.
    rewrite (Hpre "VERSION"), (Hpre "CHANGELOG.md") by (simpl; auto).
    simpl. now rewrite Hf.
  - injection E as <- <- <- <- _. simpl.
    rewrite (Hpre "VERSION"), (Hpre "CHANGELOG.md"), (Hpre "README.md")
      by (simpl; auto).
    simpl. now rewrite Hf.
  - exfalso. injection E as _ _ _ _ E. destruct pre; discriminate.
Qed.

Lemma first_missing_file_reported_witness :
  ReleaseCheck.main ["repo"] release_tree_unlicensed
  = ReleaseCheck.fail ("missing required file: " ++ str (["repo"] ++ ["LICENSE"])).
Proof.
  apply (first_missing_file_reported ["repo"] release_tree_unlicensed
           ["VERSION"; "CHANGELOG.md"; "README.md"] "LICENSE" []).
  - reflexivity.
  - intros g [<-|[<-|[<-|[]]]]; vm_compute; reflexivity.
  - vm_compute. reflexivity.
Defined.

(** X14: the README headings are looked for in the order Requirements,
    Quick Start, Validation.  When the files exist, the version is well
    formed and the change log has its heading, the first heading the README
    lacks is the one the error names. *)
Theorem first_missing_section_reported root w pre section post :
  release_ok_before_readme root w ->
  ReleaseCheck.required_sections = pre ++ section :: post ->
  (forall s, In s pre -> occurs s (read_text w (root ++ ["README.md"]))) ->
  ~ occurs section (read_text w (root ++ ["README.md"])) ->
  ReleaseCheck.main root w
  = ReleaseCheck.fail ("README.md missing section: " ++ section).
Proof.
  unfold release_ok_before_readme, ReleaseCheck.main.
  intros (Hex & Hv & Hc) E Hpre Hs.
  apply (proj2 (required_files_found root w)) in Hex. rewrite Hex.
  pose proof (semver_not_empty _ Hv) as Hne.
  apply (proj2 (semver_stripped _)) in Hv. rewrite Hv.
  destruct (ReleaseCheck.strip _) as [|c0 v0]; [congruence|]. cbn [is_empty negb].
  apply (proj2 (contains_occurs _ _)) in Hc. rewrite Hc. cbn [negb].
  assert (Hno : ReleaseCheck.contains section
                  (read_text w (root ++ ["README.md"])) = false).
  { destruct (ReleaseCheck.contains section _) eqn:C; [|reflexivity].
    apply (proj1 (contains_occurs _ _)) in C. contradiction. }
  assert (Hyes : forall s, In s pre ->
            ReleaseCheck.contains s (read_text w (root ++ ["README.md"])) = true).
  { intros s Hin. apply contains_occurs. now apply Hpre. }
  rewrite E. clear E.
  induction pre as [|s pre IH]; simpl.
  - now rewrite Hno.
  - rewrite (Hyes s) by now left. simpl. apply IH.
    + intros s' H'. apply Hpre. now right.
    + intros s' H'. apply Hyes. now right.
Qed.

Lemma first_missing_section_reported_witness :
  ReleaseCheck.main ["repo"] release_tree_short_readme
  = ReleaseCheck.fail ("README.md missing section: " ++ "## Quick Start").
Proof.
  apply (first_missing_section_reported ["repo"] release_tree_short_readme
           ["## Requirements"] "## Quick Start" ["## Validation"]).
  - split; [|split].
    + intros f _. reflexivity.
    + apply semver_stripped. vm_compute. reflexivity.
    + apply contains_occurs. vm_compute. reflexivity.
  - reflexivity.
  - intros s [<-|[]]. apply contains_occurs. vm_compute. reflexivity.
  - intros H. apply contains_occurs in H. vm_compute in H. discriminate.
Defined.

(** X15: white space around the version does not matter.  Two repositories
    that differ only by white space before and after the text of VERSION
    get the same lines and the same exit status. *)
Theorem version_white_space_ignored root w w' a b :
  all_chars is_space a = true -> all_chars is_space b = true ->
  (forall s, path_exists w' s = path_exists w s) ->
  read_text w' (root ++ ["VERSION"])
  = (a ++ read_text w (root ++ ["VERSION"])%list ++ b)%string ->
  read_text w' (root ++ ["CHANGELOG.md"]) = read_text w (root ++ ["CHANGELOG.md"]) ->
  read_text w' (root ++ ["README.md"]) = read_text w (root ++ ["README.md"]) ->
  ReleaseCheck.main root w' = ReleaseCheck.main root w.
Proof.
  intros Ha Hb Hex Hv Hc Hr. unfold ReleaseCheck.main.
  rewrite Hv, Hc, Hr, (strip_pad _ _ _ Ha Hb).
  assert (Hfind : forall l,
            find (fun q => negb (path_exists w' (str q))) l
            = find (fun q => negb (path_exists w (str q))) l).
  { intros l. induction l as [|q l IH]; simpl; [reflexivity|].
    now rewrite Hex, IH. }
  now rewrite Hfind.
Qed.

Lemma version_white_space_ignored_witness :
  ReleaseCheck.main ["repo"] release_tree
  = ReleaseCheck.main ["repo"] release_tree_bare.
Proof.
  apply (version_white_space_ignored ["repo"] release_tree_bare release_tree
           (String " " EmptyString) (String "010" EmptyString));
    reflexivity.
Defined.

(** X16: a VERSION file that is empty or holds only white space is
    reported as empty, not as badly formed, when the four files exist. *)
Theorem blank_version_is_empty root w :
  (forall f, In f required_names ->
             path_exists w (str (root ++ [f])) = true) ->
  all_chars is_space (read_text w (root ++ ["VERSION"])) = true ->
  ReleaseCheck.main root w = ReleaseCheck.fail "VERSION is empty".
Proof.
  intros Hex Hblank. unfold ReleaseCheck.main.
  apply (proj2 (required_files_found root w)) in Hex. rewrite Hex.
  now rewrite (strip_all_space _ Hblank).
Qed.

Lemma blank_version_is_empty_witness :
  ReleaseCheck.main ["repo"]
    {| path_exists := fun _ => true; rglob_rs := fun _ => [];
       read_text := fun _ => String " " (String "010" EmptyString) |}
  = ReleaseCheck.fail "VERSION is empty".
Proof.
  apply (blank_version_is_empty ["repo"]
           {| path_exists := fun _ => true; rglob_rs := fun _ => [];
              read_text := fun _ => String " " (String "010" EmptyString) |}).
  - intros f _. reflexivity.
  - reflexivity.
Defined.

(** * More on the signature pattern and the scan *)

Lemma PAT_FN_functional line n n' :
  matches_PAT_FN line n -> matches_PAT_FN line n' -> n = n'.
Proof.
  intros H H'. apply PAT_FN_matches in H, H'. congruence.
Qed.

(** X17: the signature pattern accepts exactly the lines made of optional
    white space, an optional [pub] and an optional [async], each followed
    by white space, then [fn], white space, a non-empty run of letters,
    digits and underscores, optional white space and an opening
    parenthesis; the run is the function name, and a line has at most one
    such reading, so the name does not depend on how the match is found. *)
Theorem signature_pattern_language line :
  (forall name, PAT_FN line = Some name <-> matches_PAT_FN line name) /\
  (forall n n', matches_PAT_FN line n -> matches_PAT_FN line n' -> n = n').
Proof.
  split; [intros name; apply PAT_FN_matches|apply PAT_FN_functional].
Qed.

(** X18: every name given with [--allow-fn] is exempt: no record of
    [function_violations] bears a name of the command line. *)
Theorem given_names_are_exempt c w v :
  let a := parse_args c in
  In v (function_violations w (src a) (max_fn_lines a) (allow_fn a)) ->
  ~ In (fn_name v) (given_allow_fn c).
Proof.
  intros a Hv Hin. apply function_violations_in in Hv.
  destruct Hv as (q & Hv). apply scan_file_not_allowed in Hv.
  assert (H : allowed (allow_fn a) (fn_name v) = true).
  { unfold allowed. apply existsb_exists. exists (fn_name v).
    split; [right; exact Hin|apply String.eqb_refl]. }
  congruence.
Qed.

Lemma given_names_are_exempt_witness :
  In (span_record "src/m.rs" "outer" 0 3)
     (function_violations one_file "src" 3 ["execute_task"; "one"]) /\
  ~ In (fn_name (span_record "src/m.rs" "outer" 0 3)) ["one"].
Proof.
  assert (H : In (span_record "src/m.rs" "outer" 0 3)
                 (function_violations one_file "src" 3 ["execute_task"; "one"]))
    by (vm_compute; now left).
  split; [exact H|].
  exact (given_names_are_exempt
           {| given_src := None; given_max_file_lines := None;
              given_max_fn_lines := Some 3%Z; given_allow_fn := ["one"];
              given_strict_errors := false;
              given_max_raw_eprintln := None |} one_file _ H).
Defined.

(** X19: a file in which no line matches the signature pattern, an empty
    file among them, has no function record. *)
Theorem no_signature_no_record p lines max_lines allow :
  (forall line, In line lines -> PAT_FN line = None) ->
  scan_file p lines max_lines allow = [].
Proof.
  intros Hnone.
  destruct (scan_file p lines max_lines allow) as [|v l] eqn:E;
    [reflexivity|exfalso].
  assert (Hv : In v (scan_file p lines max_lines allow))
    by (rewrite E; now left).
  apply scan_file_reported in Hv.
  destruct Hv as (i & n & j & Hi & [Hs _] & _).
  apply trace_bounds in Hi.
  rewrite (Hnone (nth i lines EmptyString)) in Hs; [discriminate|].
  apply nth_In. lia.
Qed.

Lemma no_signature_no_record_witness :
  scan_file "src/lib.rs" [ "eprintln!(a);"; "eprintln!(b);" ] 0 [] = [].
Proof.
  apply (no_signature_no_record "src/lib.rs").
  intros line [<-|[<-|[]]]; reflexivity.
Defined.

(** X20: the scan misses no function outside a closed span.  A signature
    line that does not lie inside a span closed before it, whose body
    closes and is longer than the limit, and whose name is not allowed, has
    its record in the result. *)
Theorem uncovered_signature_is_reported p lines max_lines allow k name j :
  closes_at lines k name j ->
  ~ covered lines (cursors p lines max_lines allow) k ->
  (Z.of_nat (j - k + 1) > max_lines)%Z ->
  allowed allow name = false ->
  In (span_record p name k j) (scan_file p lines max_lines allow).
Proof.
  intros Hc Hcov Hlen Hallow.
  pose proof (scan_close_in_file lines _ _ (proj2 Hc)) as Hj.
  apply scan_file_reported. exists k, name, j.
  split; [|split; [exact Hc|split; [|reflexivity]]].
  - destruct (visited_or_covered p lines max_lines allow (List.length lines)
                start_state k) as [H|H]; simpl; try lia; [exact H|].
    contradiction.
  - unfold reported. rewrite Hallow. simpl. rewrite andb_true_r.
    apply Z.gtb_lt. lia.
Qed.

Lemma uncovered_signature_is_reported_witness :
  In (span_record "a.rs" "one" 4 4) (scan_file "a.rs" sample 0 []).
Proof.
  apply (uncovered_signature_is_reported "a.rs" sample 0 [] 4 "one" 4).
  - split; vm_compute; reflexivity.
  - intros (i & n & j & Hi & [_ Hc] & Hr). vm_compute in Hi.
    destruct Hi as [<-|[<-|[<-|[<-|[]]]]]; try lia.
    vm_compute in Hc. injection Hc as <-. lia.
  - vm_compute. reflexivity.
  - reflexivity.
Defined.

(** * Runs on a disk whose reads may raise *)

(** ** The quality gate *)

Lemma find_none_iff {A : Type} (f : A -> bool) l :
  find f l = None <-> forall x, In x l -> f x = false.
Proof.
  split; [apply find_none|].
  induction l as [|x l IH]; intros H; simpl; [reflexivity|].
  rewrite (H x (or_introl eq_refl)). apply IH.
  intros y Hy. apply H. now right.
Qed.


Lemma run_readable a d :
  path_exists (contents d) (src a) = true ->
  all_readable d (src a) ->
  run a d = Returned (fst (main a (contents d))) (snd (main a (contents d))).
Proof.
  intros E Hr. unfold run. rewrite E. cbn [negb].
  assert (F : find (read_fails d)
                (sorted path_leb (rglob_rs (contents d) (src a))) = None).
  { apply find_none_iff. intros q Hq. apply Hr.
    now apply (proj1 (in_sorted_paths _ _)). }
  now rewrite F.
Qed.

Lemma run_raises a d :
  path_exists (contents d) (src a) = true ->
  ~ all_readable d (src a) ->
  exists p, In p (rglob_rs (contents d) (src a)) /\ read_fails d p = true /\
            run a d = Raised p.
Proof.
  intros E Hr. unfold run. rewrite E. cbn [negb].
  destruct (find (read_fails d)
              (sorted path_leb (rglob_rs (contents d) (src a)))) as [p|] eqn:F.
  - apply find_some in F. destruct F as [Hp Hf]. exists p.
    split; [now apply (proj1 (in_sorted_paths _ _))|]. now split.
  - exfalso. apply Hr. intros q Hq.
    apply (proj1 (find_none_iff _ _) F). now apply (proj2 (in_sorted_paths _ _)).
Qed.




(** C2, amended: in every run whose source root exists and in which every
    enumerated file can be read, the report is printed whatever failure
    applies: the banner and the two limits, every file violation, the
    first 100 function violations and the count; the baseline line is
    printed exactly when there is no file and no function violation, a
    baseline is set and the count exceeds it.  When the read of an
    enumerated file raises, nothing is printed and the exit status is 1. *)
Theorem run_diagnostics_printed a d :
  path_exists (contents d) (src a) = true ->
  let w := contents d in
  let file_v := file_violations w (src a) (max_file_lines a) in
  let fn_v := function_violations w (src a) (max_fn_lines a) (allow_fn a) in
  let ep := error_pattern_count w (src a) in
  (all_readable d (src a) ->
     (exists rest, stdout (run a d) = report a file_v fn_v ep ++ rest) /\
     (forall v, In v file_v -> In (FileViolationItem v) (stdout (run a d))) /\
     (forall v, In v (firstn 100 fn_v) ->
                In (FunctionViolationItem v) (stdout (run a d))) /\
     In (RawEprintlnCount ep) (stdout (run a d)) /\
     (forall n b,
        In (BaselineExceeded n b) (stdout (run a d)) <->
        file_v = [] /\ fn_v = [] /\ max_raw_eprintln a = Some b /\
        (Z.of_nat ep > b)%Z /\ n = ep)) /\
  (~ all_readable d (src a) ->
     stdout (run a d) = [] /\ exit_status (run a d) = 1%Z).
Proof.
  intros E w file_v fn_v ep. split.
  - intros Hr. rewrite (run_readable _ _ E Hr). cbn [stdout].
    exact (main_prints a (contents d) E).
  - intros Hr. destruct (run_raises _ _ E Hr) as (p & _ & _ & ->).
    now split.
Qed.

Lemma run_diagnostics_printed_witness :
  In (RawEprintlnCount (error_pattern_count noisy_world (src noisy_args)))
     (stdout (run noisy_args (readable noisy_world))) /\
  stdout (run default_args vendored_disk) = [].
Proof.
  split.
  - pose proof (run_diagnostics_printed noisy_args (readable noisy_world)
                  eq_refl) as H.
    cbv zeta in H. destruct H as [H _].
    assert (Hall : all_readable (readable noisy_world) (src noisy_args))
      by (intros q _; reflexivity).
    destruct (H Hall) as (_ & _ & _ & Hc & _). exact Hc.
  - pose proof (run_diagnostics_printed default_args vendored_disk eq_refl)
      as H.
    cbv zeta in H. destruct H as [_ H].
    apply H. intros Hall.
    specialize (Hall ["src"; "vendor.rs"] (or_introl eq_refl)). discriminate.
Defined.

(** ** A body that closes inside the signature line *)

(** C9, as stated, fails in its last clause: on [reopened] the body opens
    and closes on the signature line, the depth coming back to zero inside
    it, and the line opens a brace again; the span the scan records has two
    lines, not one. *)
Lemma reopened_signature_spans_two_lines :
  PAT_FN (nth 0 reopened EmptyString) = Some "f" /\
  hits_zero (nth 0 reopened EmptyString) false 0 = (true, (true, 0%Z)) /\
  scan_file "a.rs" reopened 0 [] = [ span_record "a.rs" "f" 0 1 ] /\
  fn_length (span_record "a.rs" "f" 0 1) = 2 /\
  fn_length (span_record "a.rs" "f" 0 1) <> 1.
Proof. repeat split; try reflexivity. discriminate. Qed.

(** ** The release check *)


